(** * A shallow embedding of [unko.py], the Telegram topic router.

    The bot watches one topic ("Hauptgruppe") of one group, forwards
    messages carrying [#biete] / [#suche] to the Biete / Suche topics, and
    remembers for a few minutes, per user, where that user's last tagged
    message went, so that untagged follow-ups go to the same topics.

    Modelling choices:
    - integers (chat, thread, user ids) are [Z];
    - [datetime.now()] is a clock value in microseconds ([Z]); the
      [timedelta(minutes=m)] window is [m * 60 * 10^6] microseconds;
      [handle_message] reads the clock once (in [get_active_topics_for_user]
      or in [update_user_context], never both), so it takes that value as
      its argument [now];
    - strings are UTF-8 byte strings ([String.string]); [str.strip],
      [str.isspace] and [str.splitlines] work on their characters (with
      Python's Unicode whitespace and line boundaries); [str.lower] is
      modelled on the ASCII range, which is all the hashtags need;
    - the global dict [user_forwarding_context] is a [gmap Z context_entry];
    - every Bot API call is a [call]; whether it raises is decided by an
      oracle [fails : call -> bool]; the calls made are logged in order,
      each with whether it failed;
    - Python exceptions are the [Raised] outcome of a state and exception
      monad; [try ... except Exception] is [try_except]. *)

From Stdlib Require Import ZArith String Ascii List Bool Lia.
From stdpp Require Import base gmap strings pretty.
Import ListNotations.

Open Scope Z_scope.

(** ** Configuration (module-level constants read from the environment) *)

Record config := {
  GROUP_ID : Z;
  HAUPTGRUPPE_TOPIC_ID : Z;
  BIETE_TOPIC_ID : Z;
  SUCHE_TOPIC_ID : Z;
  CONTEXT_TIME_WINDOW_MINUTES : Z
}.

(** The defaults of [os.getenv(..., default)]. *)
Definition default_config : config := {|
  GROUP_ID := -1003356712572;
  HAUPTGRUPPE_TOPIC_ID := 2;
  BIETE_TOPIC_ID := 3;
  SUCHE_TOPIC_ID := 4;
  CONTEXT_TIME_WINDOW_MINUTES := 5
|}.

(** [timedelta(minutes=CONTEXT_TIME_WINDOW_MINUTES)] in microseconds. *)
Definition context_window (cfg : config) : Z :=
  CONTEXT_TIME_WINDOW_MINUTES cfg * 60 * 1000000.

(** ** The per-user context: [{user_id: {"topics": [...], "timestamp": t}}] *)

Record context_entry := {
  topics : list Z;
  timestamp : Z
}.

Abbreviation context_map := (gmap Z context_entry).

(** [get_active_topics_for_user(user_id)]: the topics and the dict after the
    call (the [del] of an expired entry). *)
Definition get_active_topics_for_user (cfg : config) (ctx : context_map)
    (user_id : Z) (now : Z) : list Z * context_map :=
  match ctx !! user_id with
  | None => ([], ctx)
  | Some context_data =>
      let time_diff := now - timestamp context_data in
      if time_diff >? context_window cfg
      then ([], delete user_id ctx)
      else (topics context_data, ctx)
  end.

(** [update_user_context(user_id, topics)]. *)
Definition update_user_context (ctx : context_map) (user_id : Z)
    (topics' : list Z) (now : Z) : context_map :=
  <[user_id := {| topics := topics'; timestamp := now |}]> ctx.

(** ** Strings *)

Local Open Scope string_scope.

(** [str.lower] on one ASCII character. *)
Definition lower_char (c : ascii) : ascii :=
  let n := nat_of_ascii c in
  if (65 <=? n)%nat && (n <=? 90)%nat then ascii_of_nat (n + 32) else c.

Fixpoint lower (s : string) : string :=
  match s with
  | EmptyString => EmptyString
  | String c s' => String (lower_char c) (lower s')
  end.

(** Python's [sub in s]. *)
Fixpoint str_in (sub s : string) : bool :=
  String.prefix sub s ||
  match s with
  | EmptyString => false
  | String _ s' => str_in sub s'
  end.

(** [str.isspace] on one ASCII character: [\t\n\v\f\r], [\x1c]-[\x1f] and
    the space. *)
Definition py_isspace (c : ascii) : bool :=
  let n := nat_of_ascii c in
  ((9 <=? n)%nat && (n <=? 13)%nat) || ((28 <=? n)%nat && (n <=? 32)%nat).

(** *** Characters of a UTF-8 string

    Python's [str] methods work on code points; the model's strings are
    their UTF-8 bytes, cut into characters: a byte with the continuation
    bytes ([0x80]-[0xBF]) that follow it. *)
Definition is_cont (c : ascii) : bool :=
  let n := nat_of_ascii c in (128 <=? n)%nat && (n <? 192)%nat.

(** The string starts with a continuation byte. *)
Definition starts_cont (s : string) : bool :=
  match s with
  | String c _ => is_cont c
  | EmptyString => false
  end.

(** The characters of a string, each as its bytes. *)
Fixpoint chars (s : string) : list string :=
  match s with
  | EmptyString => []
  | String c s' =>
      match chars s' with
      | ch :: rest =>
          if starts_cont ch then String c ch :: rest
          else String c EmptyString :: ch :: rest
      | [] => [String c EmptyString]
      end
  end.

(** ["".join(chars)]. *)
Fixpoint concat_chars (l : list string) : string :=
  match l with
  | [] => EmptyString
  | ch :: l' => ch ++ concat_chars l'
  end.

(** The byte [b] occurs in [s]. *)
Fixpoint byte_in (b : ascii) (s : string) : bool :=
  match s with
  | EmptyString => false
  | String c s' => Ascii.eqb b c || byte_in b s'
  end.

(** A well-formed character: one byte, then continuation bytes. *)
Definition char_wf (ch : string) : bool :=
  match ch with
  | String _ t => forallb is_cont (list_ascii_of_string t)
  | EmptyString => false
  end.

(** The string starts with a byte that is not a continuation byte. *)
Definition starts_lead (s : string) : bool :=
  match s with
  | String c _ => negb (is_cont c)
  | EmptyString => false
  end.

(** The UTF-8 bytes of one character. *)
Definition utf8 (bytes : list nat) : string :=
  string_of_list_ascii (map ascii_of_nat bytes).

(** The non-ASCII characters for which [str.isspace] holds: U+0085, U+00A0,
    U+1680, U+2000-U+200A, U+2028, U+2029, U+202F, U+205F and U+3000. *)
Definition unicode_spaces : list string :=
  [utf8 [194; 133]%nat; utf8 [194; 160]%nat; utf8 [225; 154; 128]%nat] ++
  map (fun b => utf8 [226; 128; b]%nat) (seq 128 11)%nat ++
  [utf8 [226; 128; 168]%nat; utf8 [226; 128; 169]%nat;
   utf8 [226; 128; 175]%nat; utf8 [226; 129; 159]%nat;
   utf8 [227; 128; 128]%nat].

(** [ch.isspace()] for one character [ch]. *)
Definition is_space_char (ch : string) : bool :=
  match ch with
  | String c EmptyString => py_isspace c
  | _ => existsb (String.eqb ch) unicode_spaces
  end.

(** The truth value of [s.strip()]: some character is not whitespace. *)
Definition strip_nonempty (s : string) : bool :=
  existsb (fun ch => negb (is_space_char ch)) (chars s).

(** The truth value of an optional string ([None] and [""] are false). *)
Definition truthy (o : option string) : bool :=
  match o with
  | Some s => negb (String.eqb s "")
  | None => false
  end.

(** [a or b] for an optional string [a] and a string [b]. *)
Definition py_or (a : option string) (b : string) : string :=
  match a with
  | Some s => if String.eqb s "" then b else s
  | None => b
  end.

(** [message.text or message.caption or ""]. *)
Definition text_of_fields (t c : option string) : string :=
  py_or t (py_or c "").

(** The 4 UTF-8 bytes of the emoji U+1F4E8 that prefixes every header. *)
Definition incoming_envelope : string := "📨".

(** ** Messages *)

Record user := {
  user_id : Z;
  first_name : string;
  last_name : option string;
  username : option string
}.

(** The media fields hold the [file_id] of the attachment; [photo] is the
    tuple of sizes (empty when absent), smallest first. *)
Record message := {
  message_id : Z;
  chat_id : Z;
  message_thread_id : option Z;
  msg_text : option string;
  caption : option string;
  from_user : option user;
  photo : list string;
  video : option string;
  document : option string;
  audio : option string;
  voice : option string;
  video_note : option string;
  sticker : option string
}.

Record update := {
  update_id : Z;
  update_message : option message
}.

Definition text_of (m : message) : string :=
  text_of_fields (msg_text m) (caption m).

(** [f"[{user.first_name}](tg://user?id={user.id})"]. *)
Definition user_link_of (u : user) : string :=
  "[" ++ first_name u ++ "](tg://user?id=" ++ pretty (user_id u) ++ ")".

(** Lines 270-282: the hashtag checks on the lower-cased text. *)
Definition target_topics_of (cfg : config) (text_lower : string) : list Z :=
  (if str_in "#biete" text_lower then [BIETE_TOPIC_ID cfg] else []) ++
  (if str_in "#suche" text_lower then [SUCHE_TOPIC_ID cfg] else []).

(** The classifier: hashtags of a text, matched after [text.lower()]. *)
Definition classify (cfg : config) (text : string) : list Z :=
  target_topics_of cfg (lower text).

(** [any([message.photo, ..., message.sticker])]. *)
Definition has_media_of (m : message) : bool :=
  negb (bool_decide (photo m = [])) ||
  bool_decide (is_Some (video m)) || bool_decide (is_Some (document m)) ||
  bool_decide (is_Some (audio m)) || bool_decide (is_Some (voice m)) ||
  bool_decide (is_Some (video_note m)) || bool_decide (is_Some (sticker m)).

(** ** Bot API calls, exceptions and the monad *)

(** One Bot API call; every call goes to [chat_id=GROUP_ID], the ones with
    text or caption with [parse_mode="Markdown"]. *)
Inductive call :=
| send_message (thread : Z) (text : string)
| send_photo (thread : Z) (file : string) (cap : string)
| send_video (thread : Z) (file : string) (cap : string)
| send_document (thread : Z) (file : string) (cap : string)
| send_audio (thread : Z) (file : string) (cap : string)
| send_voice (thread : Z) (file : string) (cap : string)
| send_video_note (thread : Z) (file : string)
| send_sticker (thread : Z) (file : string).

Inductive exn :=
| AttributeError
| DeliveryError (c : call).

Inductive outcome (A : Type) :=
| Ok (a : A)
| Raised (e : exn).
Arguments Ok {A} a.
Arguments Raised {A} e.

(** The mutable state the handler touches: the context dict and the log of
    API calls made, each with whether it raised. *)
Record world := {
  ctx : context_map;
  sent : list (call * bool)
}.

Definition M (A : Type) : Type := world -> outcome A * world.

Definition ret {A} (a : A) : M A := fun w => (Ok a, w).

Definition bind {A B} (m : M A) (k : A -> M B) : M B := fun w =>
  match m w with
  | (Ok a, w') => k a w'
  | (Raised e, w') => (Raised e, w')
  end.

Definition raise {A} (e : exn) : M A := fun w => (Raised e, w).

(** [try: body except Exception as e: handler(e)]. *)
Definition try_except {A} (body : M A) (handler : exn -> M A) : M A := fun w =>
  match body w with
  | (Raised e, w') => handler e w'
  | r => r
  end.

Notation "x <- c ;; k" := (bind c (fun x => k))
  (at level 100, c at next level, right associativity).
Notation "c ;; k" := (bind c (fun _ => k))
  (at level 100, right associativity).

Fixpoint for_each (l : list Z) (f : Z -> M unit) : M unit :=
  match l with
  | [] => ret tt
  | x :: l' => f x ;; for_each l' f
  end.

(** The context dict as seen from the monad. *)
Definition get_active_topics (cfg : config) (uid now : Z) : M (list Z) :=
  fun w =>
    let '(r, c') := get_active_topics_for_user cfg (ctx w) uid now in
    (Ok r, {| ctx := c'; sent := sent w |}).

Definition put_user_context (uid : Z) (topics' : list Z) (now : Z) : M unit :=
  fun w =>
    (Ok tt, {| ctx := update_user_context (ctx w) uid topics' now;
               sent := sent w |}).

Definition nl : string := String (ascii_of_nat 10) EmptyString.

(** [f"📨 Von {user_link}"]. *)
Definition header (user_link : string) : string :=
  incoming_envelope ++ " Von " ++ user_link.

(** [caption_text] of [forward_media_to_topic]. *)
Definition caption_text_of (m : message) (user_link : string) : string :=
  header user_link ++
  match caption m with
  | Some c => if String.eqb c "" then "" else ":" ++ nl ++ nl ++ c
  | None => ""
  end.

(** [f"📨 Von {user_link}:\n\n{text}"]. *)
Definition text_body (user_link text : string) : string :=
  header user_link ++ ":" ++ nl ++ nl ++ text.

Section Bot.

Variable cfg : config.

(** Which API calls raise. *)
Variable fails : call -> bool.

(** An API call: logged, and raising when it fails. *)
Definition send (c : call) : M unit := fun w =>
  ((if fails c then Raised (DeliveryError c) else Ok tt),
   {| ctx := ctx w; sent := sent w ++ [(c, fails c)] |}).

(** The body of the [try] of [forward_media_to_topic]. *)
Definition media_body (m : message) (topic_id : Z) (user_link : string)
    : M unit :=
  let caption_text := caption_text_of m user_link in
  match photo m with
  | _ :: _ => send (send_photo topic_id (List.last (photo m) "") caption_text)
  | [] =>
  match video m with
  | Some f => send (send_video topic_id f caption_text)
  | None =>
  match document m with
  | Some f => send (send_document topic_id f caption_text)
  | None =>
  match audio m with
  | Some f => send (send_audio topic_id f caption_text)
  | None =>
  match voice m with
  | Some f => send (send_voice topic_id f caption_text)
  | None =>
  match video_note m with
  | Some f =>
      send (send_video_note topic_id f) ;;
      send (send_message topic_id caption_text)
  | None =>
  match sticker m with
  | Some f =>
      send (send_sticker topic_id f) ;;
      (if truthy (caption m)
       then send (send_message topic_id caption_text)
       else ret tt)
  | None => ret tt
  end end end end end end end.

Definition forward_media_to_topic (m : message) (topic_id : Z)
    (user_link : string) : M unit :=
  try_except (media_body m topic_id user_link) (fun _ => ret tt).

(** The [for topic_id in ...: try: send_message(...) except ...] loops. *)
Definition send_text_to_topics (topics' : list Z) (user_link text : string)
    : M unit :=
  for_each topics' (fun topic_id =>
    try_except (send (send_message topic_id (text_body user_link text)))
               (fun _ => ret tt)).

Definition forward_media_to_topics (m : message) (topics' : list Z)
    (user_link : string) : M unit :=
  for_each topics' (fun topic_id => forward_media_to_topic m topic_id user_link).

(** [handle_message(update, context)], with [now] the clock reading. *)
Definition handle_message (now : Z) (upd : update) : M unit :=
  match update_message upd with
  | None => ret tt
  | Some m =>
  if negb (Z.eqb (chat_id m) (GROUP_ID cfg)) then ret tt else
  if negb (bool_decide (message_thread_id m = Some (HAUPTGRUPPE_TOPIC_ID cfg)))
  then ret tt else
  let text := text_of m in
  match from_user m with
  | None => raise AttributeError  (* [user.first_name] on [None] *)
  | Some u =>
  let user_link := user_link_of u in
  let text_lower := lower text in
  let has_media := has_media_of m in
  let target_topics := target_topics_of cfg text_lower in
  match target_topics with
  | _ :: _ =>
      (if strip_nonempty text
       then send_text_to_topics target_topics user_link text else ret tt) ;;
      (if has_media
       then forward_media_to_topics m target_topics user_link else ret tt) ;;
      put_user_context (user_id u) target_topics now
  | [] =>
      if has_media || strip_nonempty text then
        active_topics <- get_active_topics cfg (user_id u) now ;;
        match active_topics with
        | _ :: _ =>
            (if strip_nonempty text
             then send_text_to_topics active_topics user_link text else ret tt) ;;
            (if has_media
             then forward_media_to_topics m active_topics user_link else ret tt)
        | [] => ret tt
        end
      else ret tt
  end
  end
  end.

(** ** The calls each step makes

    The Bot API call that [media_body] makes first, and the follow-up
    [send_message] it makes after it (for video notes, and for stickers
    with a caption). *)
Definition media_primary (m : message) (topic_id : Z) (user_link : string)
    : option call :=
  let caption_text := caption_text_of m user_link in
  match photo m with
  | _ :: _ => Some (send_photo topic_id (List.last (photo m) "") caption_text)
  | [] =>
  match video m with
  | Some f => Some (send_video topic_id f caption_text)
  | None =>
  match document m with
  | Some f => Some (send_document topic_id f caption_text)
  | None =>
  match audio m with
  | Some f => Some (send_audio topic_id f caption_text)
  | None =>
  match voice m with
  | Some f => Some (send_voice topic_id f caption_text)
  | None =>
  match video_note m with
  | Some f => Some (send_video_note topic_id f)
  | None =>
  match sticker m with
  | Some f => Some (send_sticker topic_id f)
  | None => None
  end end end end end end end.

Definition media_followup (m : message) (topic_id : Z) (user_link : string)
    : option call :=
  let caption_text := caption_text_of m user_link in
  match photo m with
  | _ :: _ => None
  | [] =>
  match video m, document m, audio m, voice m with
  | None, None, None, None =>
      match video_note m with
      | Some _ => Some (send_message topic_id caption_text)
      | None =>
          match sticker m with
          | Some _ =>
              if truthy (caption m)
              then Some (send_message topic_id caption_text) else None
          | None => None
          end
      end
  | _, _, _, _ => None
  end
  end.

(** The log of one [forward_media_to_topic]: the first call, and the
    follow-up only when the first call did not raise. *)
Definition media_log (m : message) (topic_id : Z) (user_link : string)
    : list (call * bool) :=
  match media_primary m topic_id user_link with
  | None => []
  | Some c =>
      (c, fails c) ::
      (if fails c then []
       else match media_followup m topic_id user_link with
            | Some c2 => [(c2, fails c2)]
            | None => []
            end)
  end.

(** The log of the text loop. *)
Definition text_log (topics' : list Z) (user_link text : string)
    : list (call * bool) :=
  map (fun topic_id =>
         let c := send_message topic_id (text_body user_link text) in
         (c, fails c)) topics'.

End Bot.

(** The topic a call posts to. *)
Definition call_thread (c : call) : Z :=
  match c with
  | send_message t _ | send_photo t _ _ | send_video t _ _
  | send_document t _ _ | send_audio t _ _ | send_voice t _ _
  | send_video_note t _ | send_sticker t _ => t
  end.

(** The caption argument of the calls that take one. *)
Definition call_caption (c : call) : option string :=
  match c with
  | send_photo _ _ cap | send_video _ _ cap | send_document _ _ cap
  | send_audio _ _ cap | send_voice _ _ cap => Some cap
  | _ => None
  end.

(** A sequence of operations on the context dict, for statements about the
    history of [update_user_context] calls. *)
Inductive ctx_op :=
| OpGet (uid now : Z)
| OpPut (uid : Z) (topics' : list Z) (now : Z).

Fixpoint run_ctx_ops (cfg : config) (ops : list ctx_op) (c : context_map)
    : context_map :=
  match ops with
  | [] => c
  | OpGet uid now :: ops' =>
      run_ctx_ops cfg ops' (snd (get_active_topics_for_user cfg c uid now))
  | OpPut uid ts now :: ops' =>
      run_ctx_ops cfg ops' (update_user_context c uid ts now)
  end.

Definition is_put_for (uid : Z) (o : ctx_op) : bool :=
  match o with
  | OpPut u _ _ => Z.eqb u uid
  | OpGet _ _ => false
  end.

(** The calls of one dispatch: the text loop (when the text is not blank),
    then the media loop (when there is media). *)
Definition dispatch_log (fails : call -> bool) (m : message) (l : list Z)
    (user_link text : string) : list (call * bool) :=
  (if strip_nonempty text then text_log fails l user_link text else []) ++
  (if has_media_of m
   then flat_map (fun t => media_log fails m t user_link) l else []).

(** Sample inputs. *)
Definition alice : user := {|
  user_id := 7; first_name := "Alice"; last_name := None; username := None
|}.

Definition sample_message (from : option user) (t c : option string)
    (ph : list string) (vn : option string) : message := {|
  message_id := 1;
  chat_id := GROUP_ID default_config;
  message_thread_id := Some (HAUPTGRUPPE_TOPIC_ID default_config);
  msg_text := t; caption := c; from_user := from;
  photo := ph; video := None; document := None; audio := None;
  voice := None; video_note := vn; sticker := None
|}.

Definition sample_update (m : message) : update := {|
  update_id := 1; update_message := Some m
|}.

Definition empty_world : world := {| ctx := ∅; sent := [] |}.

Definition biete_message : message :=
  sample_message (Some alice) (Some "#biete Selling a bike") None [] None.

(** The same message without [from_user] (a system message). *)
Definition no_sender_message : message :=
  sample_message None (Some "#biete Selling a bike") None [] None.

Definition follow_up_message : message :=
  sample_message (Some alice) (Some "still available") None [] None.

Definition photo_message : message :=
  sample_message (Some alice) None (Some "#suche looking for this")
    ["small"; "large"] None.

Definition video_note_message : message :=
  sample_message (Some alice) None None [] (Some "vn").

(** Alice's context after a [#suche] message at time 100. *)
Definition alice_suche_world : world := {|
  ctx := update_user_context ∅ (user_id alice) [SUCHE_TOPIC_ID default_config] 100;
  sent := []
|}.


(** A space and a no-break space (U+00A0). *)
Definition nbsp_text : string := " " ++ utf8 [194; 160]%nat.


(** A Bot API where only [send_video_note] raises. *)
Definition video_note_fails (c : call) : bool :=
  match c with
  | send_video_note _ _ => true
  | _ => false
  end.

(** ** The application loop

    [app.run_polling()] hands the updates to [handle_message] one at a time
    (the default [Application] does not process updates concurrently); an
    exception raised by the handler goes to [error_handler], which only logs,
    and the next update is processed on the state the handler left. *)
Fixpoint run_updates (cfg : config) (fails : call -> bool)
    (ups : list (Z * update)) (w : world) : world :=
  match ups with
  | [] => w
  | (now, upd) :: ups' =>
      run_updates cfg fails ups' (snd (handle_message cfg fails now upd w))
  end.

(** The update is a monitored message from user [uid] with a hashtag: the
    one kind of update after which [handle_message] calls
    [update_user_context] for [uid]. *)
Definition renews (cfg : config) (uid : Z) (upd : update) : bool :=
  match update_message upd with
  | Some m =>
      Z.eqb (chat_id m) (GROUP_ID cfg) &&
      bool_decide (message_thread_id m = Some (HAUPTGRUPPE_TOPIC_ID cfg)) &&
      match from_user m with
      | Some u => Z.eqb (user_id u) uid &&
                  negb (bool_decide (classify cfg (text_of m) = []))
      | None => false
      end
  | None => false
  end.

(** Every entry of the context dict holds a non-empty list of Biete and
    Suche topics. *)
Definition ctx_ok (cfg : config) (c : context_map) : Prop :=
  map_Forall (fun _ e => topics e <> [] /\
    Forall (fun d => d = BIETE_TOPIC_ID cfg \/ d = SUCHE_TOPIC_ID cfg) (topics e)) c.

(** The calls that post a media payload (all but [send_message]). *)
Definition is_payload_call (c : call) : bool :=
  match c with
  | send_message _ _ => false
  | _ => true
  end.

(** The message was posted in the monitored topic of the group. *)
Definition monitored (cfg : config) (m : message) : Prop :=
  chat_id m = GROUP_ID cfg /\
  message_thread_id m = Some (HAUPTGRUPPE_TOPIC_ID cfg).

(** ** [load_env]

    The file is read as UTF-8 text; [os.environ] is a map from names to
    values. *)

(** The characters left after the leading whitespace. *)
Fixpoint drop_spaces (l : list string) : list string :=
  match l with
  | [] => []
  | ch :: l' => if is_space_char ch then drop_spaces l' else l
  end.

(** [str.lstrip()] and [str.rstrip()]. *)
Definition lstrip (s : string) : string :=
  concat_chars (drop_spaces (chars s)).

Definition rstrip (s : string) : string :=
  concat_chars (rev (drop_spaces (rev (chars s)))).

(** [str.strip()]. *)
Definition py_strip (s : string) : string := rstrip (lstrip s).

(** The ASCII line boundaries of [str.splitlines()]: [\n], [\v], [\f],
    [\r] (and [\r\n]), [\x1c], [\x1d], [\x1e]. *)
Definition is_line_boundary (c : ascii) : bool :=
  let n := nat_of_ascii c in
  ((10 <=? n)%nat && (n <=? 13)%nat) || ((28 <=? n)%nat && (n <=? 30)%nat).

(** The line boundaries of [str.splitlines()]: the ASCII ones, U+0085,
    U+2028 and U+2029. *)
Definition is_line_boundary_char (ch : string) : bool :=
  match ch with
  | String c EmptyString => is_line_boundary c
  | _ => existsb (String.eqb ch)
           [utf8 [194; 133]%nat; utf8 [226; 128; 168]%nat; utf8 [226; 128; 169]%nat]
  end.

Definition CR : string := String (ascii_of_nat 13) EmptyString.

(** [str.splitlines()] on the characters of a string: a boundary ends a
    line ([\r\n] counts as one), and no empty line follows a final
    boundary. *)
Fixpoint split_lines_chars (l : list string) : list string :=
  match l with
  | [] => []
  | ch :: l' =>
      if String.eqb ch CR then
        match l' with
        | ch2 :: l'' =>
            if String.eqb ch2 nl then "" :: split_lines_chars l''
            else "" :: split_lines_chars l'
        | [] => [""]
        end
      else if is_line_boundary_char ch then "" :: split_lines_chars l'
      else
        match split_lines_chars l' with
        | [] => [ch]
        | x :: r => (ch ++ x) :: r
        end
  end.

Definition splitlines (s : string) : list string :=
  split_lines_chars (chars s).

(** [line.split("=", 1)] on a line that contains ["="]. *)
Fixpoint split_first_eq (s : string) : string * string :=
  match s with
  | EmptyString => ("", "")
  | String c s' =>
      if ascii_dec c "=" then ("", s')
      else let '(k, v) := split_first_eq s' in (String c k, v)
  end.

(** The body of the loop of [load_env] up to [setdefault]: the key and value
    a line sets, or [None] for a line it skips. *)
Definition parse_line (raw : string) : option (string * string) :=
  let line := py_strip raw in
  if String.eqb line "" || String.prefix "#" line || negb (str_in "=" line)
  then None
  else let '(key, value) := split_first_eq line in
       Some (py_strip key, py_strip value).

Abbreviation environ := (gmap string string).

Definition NUL : string := String (ascii_of_nat 0) EmptyString.

(** What [putenv] accepts: a non-empty name, and no NUL byte in the name or
    the value (otherwise [os.environ.__setitem__] raises). *)
Definition putenv_ok (key value : string) : bool :=
  negb (String.eqb key "") && negb (str_in NUL key) && negb (str_in NUL value).

(** [os.environ.setdefault(key, value)]; [None] when it raises. *)
Definition setdefault (env : environ) (key value : string) : option environ :=
  match env !! key with
  | Some _ => Some env
  | None => if putenv_ok key value then Some (<[key := value]> env) else None
  end.

Fixpoint load_env_lines (lines : list string) (env : environ) : option environ :=
  match lines with
  | [] => Some env
  | raw :: lines' =>
      match parse_line raw with
      | None => load_env_lines lines' env
      | Some (key, value) =>
          match setdefault env key value with
          | Some env' => load_env_lines lines' env'
          | None => None
          end
      end
  end.

(** [load_env(path)] with [file] the text of the file ([None] when it does
    not exist); [None] as a result when it raises. *)
Definition load_env (file : option string) (env : environ) : option environ :=
  match file with
  | None => Some env
  | Some text => load_env_lines (splitlines text) env
  end.

(** The value the first line of [lines] that sets [key] gives it. *)
Fixpoint first_definition (lines : list string) (key : string) : option string :=
  match lines with
  | [] => None
  | raw :: lines' =>
      match parse_line raw with
      | Some (k, v) => if String.eqb k key then Some v
                       else first_definition lines' key
      | None => first_definition lines' key
      end
  end.

(** Every character of [s] satisfies [p]. *)
Fixpoint str_forallb (p : ascii -> bool) (s : string) : bool :=
  match s with
  | EmptyString => true
  | String c s' => p c && str_forallb p s'
  end.

(** A new log entry goes to Biete or Suche. *)
Definition to_biete_or_suche (cfg : config) (e : call * bool) : Prop :=
  call_thread (fst e) = BIETE_TOPIC_ID cfg \/
  call_thread (fst e) = SUCHE_TOPIC_ID cfg.

Definition sample_env_file : string :=
  "# bot settings" ++ nl ++ "BOT_TOKEN = 123:abc" ++ nl ++
  "BOT_TOKEN=456:def" ++ nl ++ "MODE=poll".

(** A key as written by hand: no whitespace character, no ["="]. *)
Definition plain_key (k : string) : bool :=
  forallb (fun ch => negb (is_space_char ch)) (chars k) &&
  str_forallb (fun c => negb (Ascii.eqb c "=")) k.

(** The id of the sender of the message of an update. *)
Definition sender (upd : update) : option Z :=
  match update_message upd with
  | Some m => option_map user_id (from_user m)
  | None => None
  end.

Definition bob : user := {|
  user_id := 8; first_name := "Bob"; last_name := None; username := None
|}.

Definition bob_message : message :=
  sample_message (Some bob) (Some "#suche a bike") None [] None.

(** * Lemmas *)

Lemma world_eta (w : world) : w = {| ctx := ctx w; sent := sent w ++ [] |}.
Proof. destruct w; simpl; rewrite app_nil_r; reflexivity. Qed.

Lemma send_text_to_topics_run (fails : call -> bool) (l : list Z)
    (ul text : string) (w : world) :
  send_text_to_topics fails l ul text w =
  (Ok tt, {| ctx := ctx w; sent := sent w ++ text_log fails l ul text |}).
Proof.
  unfold send_text_to_topics, text_log.
  revert w; induction l as [|t l IH]; intros w; simpl.
  - unfold ret; rewrite app_nil_r; destruct w; reflexivity.
  - unfold bind at 1, try_except, send at 1.
    destruct (fails _) eqn:Hf; simpl; rewrite IH; simpl;
      rewrite <- app_assoc; reflexivity.
Qed.

Lemma forward_media_to_topic_run (fails : call -> bool) (m : message)
    (t : Z) (ul : string) (w : world) :
  forward_media_to_topic fails m t ul w =
  (Ok tt, {| ctx := ctx w; sent := sent w ++ media_log fails m t ul |}).
Proof.
  unfold forward_media_to_topic, try_except, media_body, media_log,
    media_primary, media_followup.
  destruct (photo m) as [|p ps].
  2:{ unfold send. destruct (fails _); reflexivity. }
  destruct (video m).
  1:{ unfold send. destruct (fails _); reflexivity. }
  destruct (document m).
  1:{ unfold send. destruct (fails _); reflexivity. }
  destruct (audio m).
  1:{ unfold send. destruct (fails _); reflexivity. }
  destruct (voice m).
  1:{ unfold send. destruct (fails _); reflexivity. }
  destruct (video_note m).
  1:{ unfold bind, send. destruct (fails (send_video_note _ _)) eqn:E1; simpl.
      - reflexivity.
      - destruct (fails (send_message _ _)); simpl; rewrite <- app_assoc; reflexivity. }
  destruct (sticker m).
  1:{ unfold bind, send, ret. destruct (fails (send_sticker _ _)) eqn:E1; simpl.
      - reflexivity.
      - destruct (truthy (caption m)); [destruct (fails (send_message _ _))|]; simpl;
        rewrite <- ?app_assoc; reflexivity. }
  unfold ret. rewrite app_nil_r. destruct w; reflexivity.
Qed.

Lemma forward_media_to_topics_run (fails : call -> bool) (m : message)
    (l : list Z) (ul : string) (w : world) :
  forward_media_to_topics fails m l ul w =
  (Ok tt, {| ctx := ctx w;
             sent := sent w ++ flat_map (fun t => media_log fails m t ul) l |}).
Proof.
  unfold forward_media_to_topics.
  revert w; induction l as [|t l IH]; intros w; simpl.
  - unfold ret; rewrite app_nil_r; destruct w; reflexivity.
  - unfold bind at 1; rewrite forward_media_to_topic_run, IH; simpl.
    rewrite <- app_assoc; reflexivity.
Qed.

(** ** [handle_message] in closed form *)

Ltac run_dispatch :=
  unfold bind;
  cbn -[text_log media_log send_text_to_topics forward_media_to_topics];
  rewrite ?send_text_to_topics_run;
  cbn -[text_log media_log send_text_to_topics forward_media_to_topics];
  rewrite ?forward_media_to_topics_run;
  cbn -[text_log media_log];
  rewrite ?app_nil_r, ?app_assoc; reflexivity.

Lemma handle_message_eq (cfg : config) (fails : call -> bool) (now : Z)
    (upd : update) (w : world) :
  handle_message cfg fails now upd w =
  match update_message upd with
  | None => (Ok tt, w)
  | Some m =>
    if negb (Z.eqb (chat_id m) (GROUP_ID cfg)) then (Ok tt, w) else
    if negb (bool_decide (message_thread_id m =
                          Some (HAUPTGRUPPE_TOPIC_ID cfg)))
    then (Ok tt, w) else
    match from_user m with
    | None => (Raised AttributeError, w)
    | Some u =>
      match classify cfg (text_of m) with
      | [] =>
        if has_media_of m || strip_nonempty (text_of m) then
          let '(active, c') :=
            get_active_topics_for_user cfg (ctx w) (user_id u) now in
          (Ok tt, {| ctx := c';
                     sent := sent w ++
                       dispatch_log fails m active (user_link_of u) (text_of m) |})
        else (Ok tt, w)
      | d :: l =>
        (Ok tt, {| ctx := update_user_context (ctx w) (user_id u) (d :: l) now;
                   sent := sent w ++
                     dispatch_log fails m (d :: l) (user_link_of u) (text_of m) |})
      end
    end
  end.
Proof.
  unfold handle_message.
  destruct (update_message upd) as [m|]; [|reflexivity].
  destruct (negb (Z.eqb _ _)); [reflexivity|].
  destruct (negb (bool_decide _)); [reflexivity|].
  destruct (from_user m) as [u|]; [|reflexivity].
  cbv zeta.
  change (target_topics_of cfg (lower (text_of m))) with (classify cfg (text_of m)).
  unfold dispatch_log.
  destruct (classify cfg (text_of m)) as [|d l].
  - destruct (has_media_of m || strip_nonempty (text_of m)); [|reflexivity].
    unfold bind at 1, get_active_topics.
    destruct (get_active_topics_for_user cfg (ctx w) (user_id u) now)
      as [active c'].
    destruct active as [|t l].
    + destruct (strip_nonempty (text_of m)), (has_media_of m);
        cbn; rewrite ?app_nil_r; reflexivity.
    + destruct (strip_nonempty (text_of m)), (has_media_of m);
        run_dispatch.
  - destruct (strip_nonempty (text_of m)), (has_media_of m);
      run_dispatch.
Qed.

(** ** Substring search *)

(** [sub] occurs in [s]. *)
Definition occurs (sub s : string) : Prop :=
  exists pre post, s = pre ++ sub ++ post.

Lemma prefix_iff (p s : string) :
  String.prefix p s = true <-> exists post, s = p ++ post.
Proof.
  revert s; induction p as [|a p IH]; intros s; destruct s as [|b s]; simpl.
  - split; [intros _; exists ""; reflexivity | reflexivity].
  - split; [intros _; exists (String b s); reflexivity | reflexivity].
  - split; [discriminate | intros [post H]; discriminate].
  - destruct (ascii_dec a b) as [->|Hne].
    + rewrite IH; split; intros [post H].
      * exists post; subst; reflexivity.
      * exists post; injection H; auto.
    + split; [discriminate | intros [post H]; injection H; intros; congruence].
Qed.

Lemma str_in_iff (sub s : string) : str_in sub s = true <-> occurs sub s.
Proof.
  unfold occurs; induction s as [|c s IH]; cbn [str_in].
  - rewrite orb_false_r, prefix_iff; split.
    + intros [post H]; exists "", post; exact H.
    + intros [[|c pre] [post H]]; [exists post; exact H | discriminate].
  - rewrite orb_true_iff, prefix_iff, IH; split.
    + intros [[post H] | [pre [post H]]].
      * exists "", post; exact H.
      * exists (String c pre), post; simpl; rewrite H; reflexivity.
    + intros [[|c' pre] [post H]].
      * left; exists post; exact H.
      * right; exists pre, post; injection H; auto.
Qed.



Lemma lower_char_hash (c : ascii) : lower_char c = "#"%char -> c = "#"%char.
Proof.
  destruct c as [[] [] [] [] [] [] [] []]; intros H; vm_compute in H;
    first [reflexivity | discriminate H].
Qed.

(** ** Characters *)

Lemma chars_head (c : ascii) (s : string) :
  exists x rest, chars (String c s) = String c x :: rest.
Proof.
  cbn [chars]; destruct (chars s) as [|ch rest]; [eauto|].
  destruct (starts_cont ch); eauto.
Qed.

Lemma chars_byte (b : ascii) (s : string) :
  byte_in b s = true -> exists ch, In ch (chars s) /\ byte_in b ch = true.
Proof.
  induction s as [|c s IH]; [discriminate|].
  cbn [byte_in]; intros H; apply orb_true_iff in H as [H|H].
  - destruct (chars_head c s) as (x & rest & E); rewrite E.
    exists (String c x); split; [left; reflexivity|].
    cbn [byte_in]; rewrite H; reflexivity.
  - destruct (IH H) as (ch & Hin & Hb).
    cbn [chars]; destruct (chars s) as [|ch0 rest]; [destruct Hin|].
    destruct Hin as [->|Hin].
    + destruct (starts_cont ch).
      * exists (String c ch); split; [left; reflexivity|].
        cbn [byte_in]; rewrite Hb; apply orb_true_r.
      * exists ch; split; [right; left; reflexivity | exact Hb].
    + destruct (starts_cont ch0); exists ch; split; auto; right; [|right]; exact Hin.
Qed.

Lemma str_in_hash_byte (r s : string) :
  str_in (String "#" r) (lower s) = true -> byte_in "#" s = true.
Proof.
  induction s as [|c s IH]; cbn [lower str_in]; [intros H; discriminate H|].
  intros H; apply orb_true_iff in H as [H | H]; cbn [byte_in].
  - cbn [String.prefix] in H.
    destruct (ascii_dec "#" (lower_char c)) as [E|]; [|discriminate].
    symmetry in E; apply lower_char_hash in E; subst; reflexivity.
  - rewrite IH by exact H; apply orb_true_r.
Qed.

Lemma space_char_no_hash (ch : string) :
  is_space_char ch = true -> byte_in "#" ch = false.
Proof.
  destruct ch as [|c [|c2 t]]; [reflexivity| |].
  - cbn [is_space_char byte_in]; intros H.
    destruct (Ascii.eqb "#" c) eqn:E; [|reflexivity].
    apply Ascii.eqb_eq in E; subst; discriminate H.
  - intros H; apply existsb_exists in H as (x & Hin & Hx).
    apply String.eqb_eq in Hx; rewrite Hx.
    vm_compute in Hin; repeat (destruct Hin as [<-|Hin]; [reflexivity|]);
      destruct Hin.
Qed.

(** A string whose lower-cased form contains a [#] is not blank. *)
Lemma str_in_hash_nonblank (r s : string) :
  str_in (String "#" r) (lower s) = true -> strip_nonempty s = true.
Proof.
  intros H; apply str_in_hash_byte, chars_byte in H as (ch & Hin & Hb).
  unfold strip_nonempty; apply existsb_exists; exists ch; split; [exact Hin|].
  destruct (is_space_char ch) eqn:E; [|reflexivity].
  apply space_char_no_hash in E; congruence.
Qed.

Lemma chars_nil (s : string) : chars s = [] -> s = "".
Proof.
  destruct s as [|c s]; [reflexivity|].
  destruct (chars_head c s) as (x & rest & ->); discriminate.
Qed.

Lemma str_app_cons (c : ascii) (a b : string) :
  String c a ++ b = String c (a ++ b).
Proof. reflexivity. Qed.

Lemma str_app_assoc (a b c : string) : (a ++ b) ++ c = a ++ (b ++ c).
Proof.
  induction a as [|x a IH]; [reflexivity|].
  rewrite !str_app_cons, IH; reflexivity.
Qed.

Lemma concat_chars_app (a b : list string) :
  concat_chars (a ++ b)%list = concat_chars a ++ concat_chars b.
Proof.
  induction a as [|ch a IH]; [reflexivity|].
  cbn [app concat_chars]; rewrite IH, str_app_assoc; reflexivity.
Qed.

Lemma concat_chars_chars (s : string) : concat_chars (chars s) = s.
Proof.
  induction s as [|c s IH]; [reflexivity|].
  cbn [chars]; destruct (chars s) as [|ch rest] eqn:E.
  - cbn [concat_chars]; rewrite <- IH; reflexivity.
  - cbn [concat_chars] in IH; rewrite <- IH.
    destruct (starts_cont ch); reflexivity.
Qed.

Lemma chars_app (a b : string) :
  b = "" \/ starts_lead b = true -> chars (a ++ b) = (chars a ++ chars b)%list.
Proof.
  intros Hb; induction a as [|c a IH]; [reflexivity|].
  rewrite str_app_cons; cbn [chars]; rewrite IH.
  destruct (chars a) as [|ch rest] eqn:Ea.
  - cbn [app]; destruct Hb as [->|Hb]; [reflexivity|].
    destruct b as [|c0 b]; [discriminate Hb|].
    destruct (chars_head c0 b) as (x & rest' & ->).
    cbn [starts_cont starts_lead] in *.
    apply negb_true_iff in Hb; rewrite Hb; reflexivity.
  - cbn [app]; destruct (starts_cont ch); reflexivity.
Qed.

Lemma cont_chars (t : string) :
  forallb is_cont (list_ascii_of_string t) = true ->
  t = "" \/ (chars t = [t] /\ starts_cont t = true).
Proof.
  induction t as [|c t IH]; [left; reflexivity|].
  cbn [list_ascii_of_string forallb]; intros H.
  apply andb_true_iff in H as [Hc Ht]; right.
  cbn [chars starts_cont]; split; [|exact Hc].
  destruct (IH Ht) as [->|[-> Hs]]; [reflexivity|].
  rewrite Hs; reflexivity.
Qed.

Lemma chars_char (ch : string) : char_wf ch = true -> chars ch = [ch].
Proof.
  destruct ch as [|c t]; [discriminate|]; cbn [char_wf]; intros H.
  cbn [chars]; destruct (cont_chars t H) as [->|[-> Hs]]; [reflexivity|].
  rewrite Hs; reflexivity.
Qed.

Lemma chars_wf (s : string) :
  forallb char_wf (chars s) = true /\ forallb starts_lead (tl (chars s)) = true.
Proof.
  induction s as [|c s [IH1 IH2]]; [split; reflexivity|].
  cbn [chars]; destruct (chars s) as [|ch rest]; [split; reflexivity|].
  cbn [forallb tl] in IH1, IH2; apply andb_true_iff in IH1 as [Hch Hrest].
  destruct (starts_cont ch) eqn:Es.
  - cbn [forallb tl]; rewrite Hrest, IH2, andb_true_r; split; [|reflexivity].
    destruct ch as [|c2 t]; [discriminate|].
    cbn [char_wf list_ascii_of_string forallb starts_cont] in Hch, Es |- *.
    rewrite Es; exact Hch.
  - cbn [forallb tl]; rewrite Hch, Hrest, IH2; split; [reflexivity|].
    destruct ch as [|c2 t]; [discriminate|].
    cbn [starts_cont starts_lead] in Es |- *; rewrite Es; reflexivity.
Qed.

Lemma chars_concat (chs : list string) :
  forallb char_wf chs = true -> forallb starts_lead (tl chs) = true ->
  chars (concat_chars chs) = chs.
Proof.
  induction chs as [|ch chs IH]; intros Hw Hl; [reflexivity|].
  cbn [forallb tl] in Hw, Hl; apply andb_true_iff in Hw as [Hch Hw].
  cbn [concat_chars]; rewrite chars_app.
  - rewrite chars_char by exact Hch; cbn [app]; f_equal; apply IH; [exact Hw|].
    destruct chs as [|ch2 chs]; [reflexivity|].
    cbn [forallb tl] in Hl |- *; apply andb_true_iff in Hl as [_ Hl]; exact Hl.
  - destruct chs as [|ch2 chs]; [left; reflexivity|right].
    cbn [forallb] in Hl; apply andb_true_iff in Hl as [Hl _].
    destruct ch2 as [|c2 t]; [discriminate|]; exact Hl.
Qed.

Lemma classify_nonblank (cfg : config) (s : string) :
  classify cfg s <> [] -> strip_nonempty s = true.
Proof.
  unfold classify, target_topics_of.
  destruct (str_in "#biete" (lower s)) eqn:Eb.
  - intros _; exact (str_in_hash_nonblank _ _ Eb).
  - destruct (str_in "#suche" (lower s)) eqn:Es.
    + intros _; exact (str_in_hash_nonblank _ _ Es).
    + simpl; congruence.
Qed.

(** * Claims *)

(** ** The classifier *)



(** C10: with distinct Biete and Suche topics, the hashtag topic list has
    no duplicates, holds only those two topics (at most two entries), and
    lists Biete before Suche whenever both markers are present, whatever
    their positions in the text. *)
Theorem target_topics_invariants (cfg : config) (text : string)
    (Hdistinct : BIETE_TOPIC_ID cfg <> SUCHE_TOPIC_ID cfg) :
  NoDup (classify cfg text) /\
  (forall d, In d (classify cfg text) ->
     d = BIETE_TOPIC_ID cfg \/ d = SUCHE_TOPIC_ID cfg) /\
  (length (classify cfg text) <= 2)%nat /\
  (In (BIETE_TOPIC_ID cfg) (classify cfg text) ->
   In (SUCHE_TOPIC_ID cfg) (classify cfg text) ->
   classify cfg text = [BIETE_TOPIC_ID cfg; SUCHE_TOPIC_ID cfg]).
Proof.
  unfold classify, target_topics_of.
  destruct (str_in "#biete" (lower text)), (str_in "#suche" (lower text));
    simpl; (split; [|split; [|split]]).
  all: try (intros; reflexivity); try (simpl; lia).
  all: try (intros d Hd; simpl in Hd; intuition fail).
  all: try (intros ? []).
  all: repeat (rewrite NoDup_cons; split); try apply NoDup_nil_2; set_solver.
Qed.

Lemma target_topics_invariants_witness :
  BIETE_TOPIC_ID default_config <> SUCHE_TOPIC_ID default_config /\
  NoDup (classify default_config "#suche #biete") /\
  (forall d, In d (classify default_config "#suche #biete") ->
     d = BIETE_TOPIC_ID default_config \/ d = SUCHE_TOPIC_ID default_config) /\
  (length (classify default_config "#suche #biete") <= 2)%nat /\
  (In (BIETE_TOPIC_ID default_config) (classify default_config "#suche #biete") ->
   In (SUCHE_TOPIC_ID default_config) (classify default_config "#suche #biete") ->
   classify default_config "#suche #biete" =
     [BIETE_TOPIC_ID default_config; SUCHE_TOPIC_ID default_config]).
Proof.
  split; [discriminate|].
  apply (target_topics_invariants default_config "#suche #biete").
  discriminate.
Defined.

(** ** Where the logged calls go *)

Ltac destruct_matches :=
  repeat match goal with
         | |- context [match ?x with _ => _ end] => destruct x
         end.

Lemma media_primary_thread (m : message) (t : Z) (ul : string) (c : call) :
  media_primary m t ul = Some c -> call_thread c = t.
Proof.
  unfold media_primary; destruct_matches; intros H; inversion H; reflexivity.
Qed.

Lemma media_followup_thread (m : message) (t : Z) (ul : string) (c : call) :
  media_followup m t ul = Some c -> call_thread c = t.
Proof.
  unfold media_followup; destruct_matches; intros H; inversion H; reflexivity.
Qed.

Lemma media_log_thread (fails : call -> bool) (m : message) (t : Z)
    (ul : string) (c : call) (b : bool) :
  In (c, b) (media_log fails m t ul) -> call_thread c = t.
Proof.
  unfold media_log.
  destruct (media_primary m t ul) as [c1|] eqn:E1; simpl; [|tauto].
  intros [H|H]; [injection H; intros; subst; eauto using media_primary_thread|].
  destruct (fails c1); simpl in H; [tauto|].
  destruct (media_followup m t ul) as [c2|] eqn:E2; simpl in H; [|tauto].
  destruct H as [H|[]]; injection H; intros; subst;
    eauto using media_followup_thread.
Qed.

Lemma media_primary_some (m : message) (t : Z) (ul : string) :
  has_media_of m = true -> exists c, media_primary m t ul = Some c.
Proof.
  unfold has_media_of, media_primary.
  destruct (photo m), (video m), (document m), (audio m), (voice m),
    (video_note m), (sticker m); simpl; eauto; intros H; discriminate H.
Qed.

Lemma media_log_covers (fails : call -> bool) (m : message) (t : Z)
    (ul : string) :
  has_media_of m = true ->
  exists c b, In (c, b) (media_log fails m t ul) /\ call_thread c = t.
Proof.
  intros H; destruct (media_primary_some m t ul H) as [c E].
  exists c, (fails c); unfold media_log; rewrite E; split; [left; reflexivity|].
  eauto using media_primary_thread.
Qed.

Lemma dispatch_log_thread (fails : call -> bool) (m : message) (l : list Z)
    (ul text : string) (c : call) (b : bool) :
  In (c, b) (dispatch_log fails m l ul text) -> In (call_thread c) l.
Proof.
  unfold dispatch_log, text_log; rewrite in_app_iff; intros [H|H].
  - destruct (strip_nonempty text); [|destruct H].
    apply in_map_iff in H as [t [Ht Hin]]; injection Ht; intros; subst; exact Hin.
  - destruct (has_media_of m); [|destruct H].
    apply in_flat_map in H as [t [Hin H]].
    apply media_log_thread in H; subst; exact Hin.
Qed.

Lemma dispatch_log_covers (fails : call -> bool) (m : message) (l : list Z)
    (ul text : string) (d : Z) :
  has_media_of m || strip_nonempty text = true -> In d l ->
  exists c b, In (c, b) (dispatch_log fails m l ul text) /\ call_thread c = d.
Proof.
  intros Hc Hd; unfold dispatch_log.
  destruct (strip_nonempty text) eqn:Es.
  - exists (send_message d (text_body ul text)),
      (fails (send_message d (text_body ul text))).
    split; [|reflexivity]; apply in_app_iff; left; unfold text_log.
    apply in_map_iff; exists d; split; [reflexivity | exact Hd].
  - rewrite orb_false_r in Hc; rewrite Hc.
    destruct (media_log_covers fails m d ul Hc) as [c [b [Hin Ht]]].
    exists c, b; split; [|exact Ht]; apply in_app_iff; right.
    apply in_flat_map; exists d; split; assumption.
Qed.

Lemma dispatch_log_nil (fails : call -> bool) (m : message) (ul text : string) :
  dispatch_log fails m [] ul text = [].
Proof.
  unfold dispatch_log; destruct (strip_nonempty text), (has_media_of m);
    reflexivity.
Qed.

Lemma run_ctx_ops_no_put (cfg : config) (uid : Z) (ops : list ctx_op)
    (c : context_map) :
  forallb (fun o => negb (is_put_for uid o)) ops = true ->
  c !! uid = None -> run_ctx_ops cfg ops c !! uid = None.
Proof.
  revert c; induction ops as [|o ops IH]; intros c Hops Hc; simpl in *;
    [exact Hc|].
  apply andb_true_iff in Hops as [Ho Hops].
  destruct o as [u now | u ts now]; simpl in *; apply IH; auto.
  - unfold get_active_topics_for_user.
    destruct (c !! u) as [e|]; [destruct (_ >? _)|]; simpl; auto.
    apply lookup_delete_None; auto.
  - unfold update_user_context; rewrite lookup_insert_ne; [exact Hc|].
    intros ->; rewrite Z.eqb_refl in Ho; discriminate.
Qed.

(** ** The context store *)

(** C4: [get_active_topics_for_user] gives no topics for a user without an
    entry (in particular one never passed to [update_user_context]); an
    entry older than the window (strictly) is deleted and gives no topics;
    any other entry, including one exactly as old as the window, gives its
    topics and is left as it is; so after [update_user_context] the read
    gives that call's topics while the window has not passed. *)
Theorem get_active_topics_for_user_spec (cfg : config) (c : context_map)
    (uid now : Z) :
  (c !! uid = None -> get_active_topics_for_user cfg c uid now = ([], c)) /\
  (forall ops, forallb (fun o => negb (is_put_for uid o)) ops = true ->
     get_active_topics_for_user cfg (run_ctx_ops cfg ops ∅) uid now =
       ([], run_ctx_ops cfg ops ∅)) /\
  (forall e, c !! uid = Some e -> now - timestamp e > context_window cfg ->
     get_active_topics_for_user cfg c uid now = ([], delete uid c)) /\
  (forall e, c !! uid = Some e -> now - timestamp e <= context_window cfg ->
     get_active_topics_for_user cfg c uid now = (topics e, c)) /\
  (forall e, c !! uid = Some e -> now - timestamp e = context_window cfg ->
     get_active_topics_for_user cfg c uid now = (topics e, c)) /\
  (forall ts t,
     get_active_topics_for_user cfg (update_user_context c uid ts t) uid now =
     if now - t >? context_window cfg
     then ([], delete uid (update_user_context c uid ts t))
     else (ts, update_user_context c uid ts t)).
Proof.
  unfold get_active_topics_for_user.
  split; [intros H; rewrite H; reflexivity|].
  split; [intros ops Hops; rewrite run_ctx_ops_no_put; auto|].
  split; [intros e H Hgt; rewrite H;
          rewrite (proj2 (Z.gtb_lt _ _)) by lia; reflexivity|].
  split; [intros e H Hle; rewrite H;
          destruct (_ >? _) eqn:Hgt; [apply Z.gtb_lt in Hgt; lia|];
          reflexivity|].
  split; [intros e H Heq; rewrite H;
          destruct (_ >? _) eqn:Hgt; [apply Z.gtb_lt in Hgt; lia|];
          reflexivity|].
  intros ts t; unfold update_user_context; rewrite lookup_insert_eq; simpl.
  reflexivity.
Qed.

(** C9: reading a user's context twice with the same clock gives the same
    topics, and the second read leaves the dict as the first left it; the
    first read changes the dict only by deleting an expired entry, and
    then gives no topics. *)
Theorem get_active_topics_for_user_idempotent (cfg : config)
    (c : context_map) (uid now : Z) :
  let '(r1, c1) := get_active_topics_for_user cfg c uid now in
  get_active_topics_for_user cfg c1 uid now = (r1, c1) /\
  (c1 = c \/ (c1 = delete uid c /\ r1 = [])).
Proof.
  unfold get_active_topics_for_user.
  destruct (c !! uid) as [e|] eqn:He.
  - destruct (now - timestamp e >? context_window cfg) eqn:Hgt.
    + rewrite lookup_delete_eq; auto.
    + rewrite He, Hgt; auto.
  - rewrite He; auto.
Qed.

(** ** Ingress *)

Lemma monitored_prefix (cfg : config) (m : message) :
  chat_id m = GROUP_ID cfg ->
  message_thread_id m = Some (HAUPTGRUPPE_TOPIC_ID cfg) ->
  negb (Z.eqb (chat_id m) (GROUP_ID cfg)) = false /\
  negb (bool_decide (message_thread_id m = Some (HAUPTGRUPPE_TOPIC_ID cfg)))
    = false.
Proof.
  intros Hc Ht; rewrite Hc, Z.eqb_refl, Ht, bool_decide_eq_true_2 by reflexivity.
  split; reflexivity.
Qed.

(** C1 (code bug): a message from another chat or another topic is dropped
    with no call and no change to the context dict; but a message of the
    monitored topic without [from_user] is not dropped silently: the
    handler logs "User is None!" and then raises [AttributeError] on
    [user.first_name]. *)
Theorem handle_message_foreign_dropped_but_no_sender_raises :
  (forall cfg fails now upd m w,
     update_message upd = Some m ->
     chat_id m <> GROUP_ID cfg \/
     message_thread_id m <> Some (HAUPTGRUPPE_TOPIC_ID cfg) ->
     handle_message cfg fails now upd w = (Ok tt, w)) /\
  (forall fails now w,
     handle_message default_config fails now (sample_update no_sender_message) w
     = (Raised AttributeError, w)).
Proof.
  split.
  - intros cfg fails now upd m w Hm Hforeign.
    rewrite handle_message_eq, Hm.
    destruct (Z.eqb (chat_id m) (GROUP_ID cfg)) eqn:Hc; [|reflexivity].
    apply Z.eqb_eq in Hc.
    destruct Hforeign as [Hf|Hf]; [contradiction|].
    rewrite bool_decide_eq_false_2 by exact Hf; reflexivity.
  - intros fails now w; reflexivity.
Qed.

(** ** Routing *)

(** C5: a monitored message with a hashtag goes to exactly the hashtag
    topics (every call it makes goes to one of them, each of them gets a
    call), and then the user's context is overwritten with those topics and
    the current clock, whatever it held before; other users' entries are
    untouched. *)
Theorem keyword_message_dispatch_and_overwrite (cfg : config)
    (fails : call -> bool) (now : Z) (upd : update) (m : message) (u : user)
    (w : world)
    (Hm : update_message upd = Some m)
    (Hchat : chat_id m = GROUP_ID cfg)
    (Hthread : message_thread_id m = Some (HAUPTGRUPPE_TOPIC_ID cfg))
    (Hu : from_user m = Some u)
    (Hkw : classify cfg (text_of m) <> []) :
  exists log,
    handle_message cfg fails now upd w =
      (Ok tt, {| ctx := update_user_context (ctx w) (user_id u)
                          (classify cfg (text_of m)) now;
                 sent := sent w ++ log |}) /\
    (forall c b, In (c, b) log -> In (call_thread c) (classify cfg (text_of m))) /\
    (forall d, In d (classify cfg (text_of m)) ->
       exists c b, In (c, b) log /\ call_thread c = d) /\
    update_user_context (ctx w) (user_id u) (classify cfg (text_of m)) now
      !! user_id u = Some {| topics := classify cfg (text_of m); timestamp := now |} /\
    (forall k, k <> user_id u ->
       update_user_context (ctx w) (user_id u) (classify cfg (text_of m)) now !! k
       = ctx w !! k).
Proof.
  pose proof (classify_nonblank cfg (text_of m) Hkw) as Hblank.
  destruct (monitored_prefix cfg m Hchat Hthread) as [H1 H2].
  rewrite handle_message_eq, Hm, H1, H2, Hu.
  destruct (classify cfg (text_of m)) as [|d l] eqn:E; [contradiction|].
  exists (dispatch_log fails m (d :: l) (user_link_of u) (text_of m)).
  split; [reflexivity|].
  split; [intros c b; apply dispatch_log_thread|].
  split; [intros d' Hd; apply dispatch_log_covers;
          [rewrite Hblank, orb_true_r; reflexivity | exact Hd]|].
  unfold update_user_context; split.
  - apply lookup_insert_eq.
  - intros k Hk; apply lookup_insert_ne; congruence.
Qed.

Lemma keyword_message_dispatch_and_overwrite_witness :
  exists log,
    handle_message default_config (fun _ => false) 100
      (sample_update biete_message) empty_world =
      (Ok tt, {| ctx := update_user_context (ctx empty_world) (user_id alice)
                          (classify default_config (text_of biete_message)) 100;
                 sent := sent empty_world ++ log |}) /\
    (forall c b, In (c, b) log ->
       In (call_thread c) (classify default_config (text_of biete_message))) /\
    (forall d, In d (classify default_config (text_of biete_message)) ->
       exists c b, In (c, b) log /\ call_thread c = d) /\
    update_user_context (ctx empty_world) (user_id alice)
      (classify default_config (text_of biete_message)) 100 !! user_id alice
      = Some {| topics := classify default_config (text_of biete_message);
                timestamp := 100 |} /\
    (forall k, k <> user_id alice ->
       update_user_context (ctx empty_world) (user_id alice)
         (classify default_config (text_of biete_message)) 100 !! k
       = ctx empty_world !! k).
Proof.
  apply (keyword_message_dispatch_and_overwrite default_config (fun _ => false)
           100 (sample_update biete_message) biete_message alice empty_world);
    try reflexivity.
  vm_compute; discriminate.
Defined.

(** C6: a monitored message without a hashtag but with non-blank text or
    media goes to exactly the topics [get_active_topics_for_user] returns
    (none at all when it returns none); the handler writes no context: the
    dict afterwards is the one that read leaves, which is the dict as it
    was, or the dict without the user's entry when that entry had expired. *)
Theorem context_message_dispatch (cfg : config) (fails : call -> bool)
    (now : Z) (upd : update) (m : message) (u : user) (w : world)
    (Hm : update_message upd = Some m)
    (Hchat : chat_id m = GROUP_ID cfg)
    (Hthread : message_thread_id m = Some (HAUPTGRUPPE_TOPIC_ID cfg))
    (Hu : from_user m = Some u)
    (Hkw : classify cfg (text_of m) = [])
    (Hcontent : has_media_of m || strip_nonempty (text_of m) = true) :
  exists log,
    handle_message cfg fails now upd w =
      (Ok tt, {| ctx := snd (get_active_topics_for_user cfg (ctx w) (user_id u) now);
                 sent := sent w ++ log |}) /\
    (forall c b, In (c, b) log ->
       In (call_thread c) (fst (get_active_topics_for_user cfg (ctx w) (user_id u) now))) /\
    (forall d, In d (fst (get_active_topics_for_user cfg (ctx w) (user_id u) now)) ->
       exists c b, In (c, b) log /\ call_thread c = d) /\
    (fst (get_active_topics_for_user cfg (ctx w) (user_id u) now) = [] -> log = []) /\
    (snd (get_active_topics_for_user cfg (ctx w) (user_id u) now) = ctx w \/
     exists e, ctx w !! user_id u = Some e /\
               now - timestamp e > context_window cfg /\
               snd (get_active_topics_for_user cfg (ctx w) (user_id u) now) =
                 delete (user_id u) (ctx w)).
Proof.
  destruct (monitored_prefix cfg m Hchat Hthread) as [H1 H2].
  rewrite handle_message_eq, Hm, H1, H2, Hu, Hkw, Hcontent.
  assert (Hctx : snd (get_active_topics_for_user cfg (ctx w) (user_id u) now) = ctx w \/
     exists e, ctx w !! user_id u = Some e /\
               now - timestamp e > context_window cfg /\
               snd (get_active_topics_for_user cfg (ctx w) (user_id u) now) =
                 delete (user_id u) (ctx w)).
  { unfold get_active_topics_for_user.
    destruct (ctx w !! user_id u) as [e|]; [|left; reflexivity].
    destruct (now - timestamp e >? context_window cfg) eqn:Hgt;
      [|left; reflexivity].
    right; exists e; split; [reflexivity|]; split; [|reflexivity].
    apply Z.gtb_lt in Hgt; lia. }
  revert Hctx.
  destruct (get_active_topics_for_user cfg (ctx w) (user_id u) now)
    as [active c'] eqn:E; simpl; intros Hctx.
  exists (dispatch_log fails m active (user_link_of u) (text_of m)).
  split; [reflexivity|].
  split; [intros c b; apply dispatch_log_thread|].
  split; [intros d Hd; apply dispatch_log_covers; assumption|].
  split; [intros ->; apply dispatch_log_nil|].
  exact Hctx.
Qed.

Lemma context_message_dispatch_witness :
  exists log,
    handle_message default_config (fun _ => false) 200
      (sample_update follow_up_message) alice_suche_world =
      (Ok tt, {| ctx := snd (get_active_topics_for_user default_config
                               (ctx alice_suche_world) (user_id alice) 200);
                 sent := sent alice_suche_world ++ log |}) /\
    (forall c b, In (c, b) log ->
       In (call_thread c) (fst (get_active_topics_for_user default_config
                                  (ctx alice_suche_world) (user_id alice) 200))) /\
    (forall d, In d (fst (get_active_topics_for_user default_config
                            (ctx alice_suche_world) (user_id alice) 200)) ->
       exists c b, In (c, b) log /\ call_thread c = d) /\
    (fst (get_active_topics_for_user default_config
            (ctx alice_suche_world) (user_id alice) 200) = [] -> log = []) /\
    (snd (get_active_topics_for_user default_config
            (ctx alice_suche_world) (user_id alice) 200) = ctx alice_suche_world \/
     exists e, ctx alice_suche_world !! user_id alice = Some e /\
               200 - timestamp e > context_window default_config /\
               snd (get_active_topics_for_user default_config
                      (ctx alice_suche_world) (user_id alice) 200) =
                 delete (user_id alice) (ctx alice_suche_world)).
Proof.
  apply (context_message_dispatch default_config (fun _ => false) 200
           (sample_update follow_up_message) follow_up_message alice
           alice_suche_world); vm_compute; reflexivity.
Defined.

(** ** Media captions and follow-ups *)

Lemma string_app_nil_r (s : string) : s ++ "" = s.
Proof.
  induction s as [|c s IH]; [reflexivity|].
  change (String c (s ++ "") = String c s); rewrite IH; reflexivity.
Qed.

Lemma caption_text_of_eq (m : message) (ul : string) :
  caption_text_of m ul =
  if truthy (caption m)
  then header ul ++ ":" ++ nl ++ nl ++ py_or (caption m) ""
  else header ul.
Proof.
  unfold caption_text_of, truthy, py_or.
  destruct (caption m) as [s|]; cbn -[header String.append nl];
    [|apply string_app_nil_r].
  destruct (String.eqb s "") eqn:E; cbn -[header String.append nl];
    [apply string_app_nil_r|].
  reflexivity.
Qed.

Lemma media_primary_caption (m : message) (t : Z) (ul : string) (c : call)
    (cap : string) :
  media_primary m t ul = Some c -> call_caption c = Some cap ->
  cap = caption_text_of m ul.
Proof.
  unfold media_primary; destruct_matches; intros H1 H2; inversion H1; subst;
    simpl in H2; inversion H2; reflexivity.
Qed.

Lemma media_followup_caption (m : message) (t : Z) (ul : string) (c : call) :
  media_followup m t ul = Some c -> call_caption c = None.
Proof.
  unfold media_followup; destruct_matches; intros H; inversion H; reflexivity.
Qed.

(** C3 (as amended): every photo, video, document, audio or voice call of
    [forward_media_to_topic] carries as caption the attribution header,
    followed, when the message has a non-empty caption, by a blank line and
    that caption. *)
Theorem media_caption_is_header_then_caption (fails : call -> bool)
    (m : message) (t : Z) (ul : string) (w : world) :
  exists log,
    forward_media_to_topic fails m t ul w =
      (Ok tt, {| ctx := ctx w; sent := sent w ++ log |}) /\
    (forall c b cap, In (c, b) log -> call_caption c = Some cap ->
       cap = if truthy (caption m)
             then header ul ++ ":" ++ nl ++ nl ++ py_or (caption m) ""
             else header ul).
Proof.
  exists (media_log fails m t ul); split; [apply forward_media_to_topic_run|].
  intros c b cap Hin Hcap; rewrite <- caption_text_of_eq.
  unfold media_log in Hin.
  destruct (media_primary m t ul) as [c1|] eqn:E1; [|destruct Hin].
  destruct Hin as [H|H].
  - injection H; intros; subst; eauto using media_primary_caption.
  - destruct (fails c1); [destruct H|].
    destruct (media_followup m t ul) as [c2|] eqn:E2; [|destruct H].
    destruct H as [H|[]]; injection H; intros; subst.
    apply media_followup_caption in E2; congruence.
Qed.

(** C3 (counterexample): a photo captioned ["#suche looking for this"] is
    posted to Suche with the header and the caption as its caption, not
    with the header alone. *)
Lemma photo_caption_is_not_only_header :
  In (send_photo (SUCHE_TOPIC_ID default_config) "large"
        (header (user_link_of alice) ++ ":" ++ nl ++ nl ++
         "#suche looking for this"), false)
     (sent (snd (handle_message default_config (fun _ => false) 100
                   (sample_update photo_message) empty_world))) /\
  header (user_link_of alice) ++ ":" ++ nl ++ nl ++ "#suche looking for this"
    <> header (user_link_of alice).
Proof.
  split.
  - vm_compute; right; left; reflexivity.
  - intros H; apply (f_equal String.length) in H; vm_compute in H; lia.
Qed.




(** ** Delivery failures *)

(** C7 (as amended): a failing API call never stops the handler: every
    text send of the loop is made whatever the earlier ones did, every
    topic's media step is made whatever the text sends and the other media
    steps did, and the handler ends normally (it raises only on a message
    without a sender); the one call a failure suppresses is the follow-up
    header message of a video note or sticker whose own send failed. *)
Theorem delivery_failures_isolated (cfg : config) (fails : call -> bool) :
  (forall l ul text w,
     send_text_to_topics fails l ul text w =
       (Ok tt, {| ctx := ctx w; sent := sent w ++ text_log fails l ul text |})) /\
  (forall m l ul w,
     forward_media_to_topics fails m l ul w =
       (Ok tt, {| ctx := ctx w;
                  sent := sent w ++ flat_map (fun t => media_log fails m t ul) l |})) /\
  (forall m t ul c, media_primary m t ul = Some c ->
     exists rest, media_log fails m t ul = (c, fails c) :: rest /\
       (fails c = true -> rest = []) /\
       (fails c = false -> forall c2, media_followup m t ul = Some c2 ->
          rest = [(c2, fails c2)])) /\
  (forall now upd m u w,
     update_message upd = Some m -> chat_id m = GROUP_ID cfg ->
     message_thread_id m = Some (HAUPTGRUPPE_TOPIC_ID cfg) ->
     from_user m = Some u -> classify cfg (text_of m) <> [] ->
     sent (snd (handle_message cfg fails now upd w)) =
       (sent w ++ dispatch_log fails m (classify cfg (text_of m))
                    (user_link_of u) (text_of m))%list) /\
  (forall now upd w,
     fst (handle_message cfg fails now upd w) = Ok tt \/
     (fst (handle_message cfg fails now upd w) = Raised AttributeError /\
      exists m, update_message upd = Some m /\ from_user m = None)).
Proof.
  split; [apply send_text_to_topics_run|].
  split; [apply forward_media_to_topics_run|].
  split.
  - intros m t ul c E; unfold media_log; rewrite E.
    eexists; split; [reflexivity|]; split.
    + intros ->; reflexivity.
    + intros -> c2 ->; reflexivity.
  - split.
    + intros now upd m u w Hm Hc Ht Hu Hkw.
      destruct (monitored_prefix cfg m Hc Ht) as [H1 H2].
      rewrite handle_message_eq, Hm, H1, H2, Hu.
      destruct (classify cfg (text_of m)); [contradiction | reflexivity].
    + intros now upd w; rewrite handle_message_eq.
      destruct (update_message upd) as [m|]; [|left; reflexivity].
      destruct (negb _); [left; reflexivity|].
      destruct (negb _); [left; reflexivity|].
      destruct (from_user m) as [u|] eqn:Hu; [|right; eauto].
      destruct (classify cfg (text_of m)); [|left; reflexivity].
      destruct (_ || _); [|left; reflexivity].
      destruct (get_active_topics_for_user _ _ _ _); left; reflexivity.
Qed.

(** C7 (counterexample): Alice has a live Suche context and sends a video
    note; when every call succeeds the video note is followed by the header
    message, but when [send_video_note] raises, that follow-up message is
    never attempted. *)
Lemma video_note_failure_skips_follow_up :
  In (send_message (SUCHE_TOPIC_ID default_config) (header (user_link_of alice)),
      false)
     (sent (snd (handle_message default_config (fun _ => false) 200
                   (sample_update video_note_message) alice_suche_world))) /\
  sent (snd (handle_message default_config video_note_fails 200
               (sample_update video_note_message) alice_suche_world)) =
    [(send_video_note (SUCHE_TOPIC_ID default_config) "vn", true)].
Proof.
  split; vm_compute; [right; left|]; reflexivity.
Qed.

(** * Further properties of the code *)

(** ** The context dict across one update *)

Lemma handle_message_ctx_cases (cfg : config) (fails : call -> bool)
    (now : Z) (upd : update) (w : world) (k : Z) :
  ctx (snd (handle_message cfg fails now upd w)) !! k = ctx w !! k \/
  (exists m u e, update_message upd = Some m /\ monitored cfg m /\
     from_user m = Some u /\ k = user_id u /\
     classify cfg (text_of m) = [] /\
     ctx w !! k = Some e /\ now - timestamp e > context_window cfg /\
     ctx (snd (handle_message cfg fails now upd w)) !! k = None) \/
  (exists m u, update_message upd = Some m /\ monitored cfg m /\
     from_user m = Some u /\ k = user_id u /\
     classify cfg (text_of m) <> [] /\
     ctx (snd (handle_message cfg fails now upd w)) !! k =
       Some {| topics := classify cfg (text_of m); timestamp := now |}).
Proof.
  rewrite handle_message_eq.
  destruct (update_message upd) as [m|] eqn:Hm; [|left; reflexivity].
  destruct (Z.eqb (chat_id m) (GROUP_ID cfg)) eqn:Hc; [|left; reflexivity].
  destruct (bool_decide (message_thread_id m = Some (HAUPTGRUPPE_TOPIC_ID cfg)))
    eqn:Ht; [|left; reflexivity].
  assert (Hmon : monitored cfg m)
    by (split; [apply Z.eqb_eq | apply bool_decide_eq_true_1 in Ht]; assumption).
  cbn [negb].
  destruct (from_user m) as [u|] eqn:Hu; [|left; reflexivity].
  destruct (classify cfg (text_of m)) as [|d l] eqn:Ec.
  - destruct (has_media_of m || strip_nonempty (text_of m)); [|left; reflexivity].
    unfold get_active_topics_for_user.
    destruct (ctx w !! user_id u) as [e|] eqn:He; [|left; reflexivity].
    destruct (now - timestamp e >? context_window cfg) eqn:Hgt;
      [|left; reflexivity].
    cbn [ctx snd].
    destruct (decide (k = user_id u)) as [->|Hne].
    + right; left; exists m, u, e.
      rewrite lookup_delete_eq; apply Z.gtb_lt in Hgt.
      repeat split; try apply (proj1 Hmon); try apply (proj2 Hmon); auto; lia.
    + left; rewrite lookup_delete_ne by congruence; reflexivity.
  - cbn [ctx snd]; unfold update_user_context.
    destruct (decide (k = user_id u)) as [->|Hne].
    + right; right; exists m, u; rewrite lookup_insert_eq.
      repeat split; try apply (proj1 Hmon); try apply (proj2 Hmon); auto;
        rewrite Ec; [discriminate | reflexivity].
    + left; rewrite lookup_insert_ne by congruence; reflexivity.
Qed.

(** [handle_message] changes the context dict at most at the sender's key:
    every other entry is left as it was; the sender's entry is either
    deleted, when the message is a monitored message without hashtag, the
    entry is older than the window and the handler read it, or set to the
    hashtag topics of the message and the clock, when the message is a
    monitored message with a hashtag. *)
Theorem handle_message_context_frame (cfg : config) (fails : call -> bool)
    (now : Z) (upd : update) (w : world) (k : Z) :
  ctx (snd (handle_message cfg fails now upd w)) !! k = ctx w !! k \/
  (exists m u e, update_message upd = Some m /\ monitored cfg m /\
     from_user m = Some u /\ k = user_id u /\
     classify cfg (text_of m) = [] /\
     ctx w !! k = Some e /\ now - timestamp e > context_window cfg /\
     ctx (snd (handle_message cfg fails now upd w)) !! k = None) \/
  (exists m u, update_message upd = Some m /\ monitored cfg m /\
     from_user m = Some u /\ k = user_id u /\
     classify cfg (text_of m) <> [] /\
     ctx (snd (handle_message cfg fails now upd w)) !! k =
       Some {| topics := classify cfg (text_of m); timestamp := now |}).
Proof. exact (handle_message_ctx_cases cfg fails now upd w k). Qed.

(** ** Only the Biete and Suche topics receive posts *)

Lemma classify_members (cfg : config) (s : string) (d : Z) :
  In d (classify cfg s) -> d = BIETE_TOPIC_ID cfg \/ d = SUCHE_TOPIC_ID cfg.
Proof.
  unfold classify, target_topics_of.
  destruct (str_in "#biete" (lower s)), (str_in "#suche" (lower s));
    simpl; intuition.
Qed.

Lemma dispatch_log_to_biete_or_suche (cfg : config) (fails : call -> bool)
    (m : message) (l : list Z) (ul text : string) :
  Forall (fun d => d = BIETE_TOPIC_ID cfg \/ d = SUCHE_TOPIC_ID cfg) l ->
  Forall (to_biete_or_suche cfg) (dispatch_log fails m l ul text).
Proof.
  intros Hl; apply Forall_forall; intros [c b] Hin.
  apply list_elem_of_In, dispatch_log_thread, list_elem_of_In in Hin.
  rewrite Forall_forall in Hl; exact (Hl _ Hin).
Qed.

Lemma handle_message_step_ok (cfg : config) (fails : call -> bool)
    (now : Z) (upd : update) (w : world) :
  ctx_ok cfg (ctx w) ->
  ctx_ok cfg (ctx (snd (handle_message cfg fails now upd w))) /\
  exists new, sent (snd (handle_message cfg fails now upd w)) =
              (sent w ++ new)%list /\
              Forall (to_biete_or_suche cfg) new.
Proof.
  intros Hok.
  assert (Hw : ctx_ok cfg (ctx w) /\ exists new, sent w = (sent w ++ new)%list /\
               Forall (to_biete_or_suche cfg) new)
    by (split; [exact Hok | exists []; rewrite app_nil_r; auto]).
  rewrite handle_message_eq.
  destruct (update_message upd) as [m|]; [|exact Hw].
  destruct (negb (Z.eqb _ _)); [exact Hw|].
  destruct (negb (bool_decide _)); [exact Hw|].
  destruct (from_user m) as [u|]; [|exact Hw].
  destruct (classify cfg (text_of m)) as [|d l] eqn:Ec.
  - destruct (has_media_of m || strip_nonempty (text_of m)); [|exact Hw].
    unfold get_active_topics_for_user.
    destruct (ctx w !! user_id u) as [e|] eqn:He.
    + destruct (now - timestamp e >? context_window cfg).
      * cbn [ctx snd sent]; split; [apply map_Forall_delete, Hok|].
        eexists; split; [reflexivity|].
        rewrite dispatch_log_nil; constructor.
      * cbn [ctx snd sent]; split; [exact Hok|].
        eexists; split; [reflexivity|].
        apply dispatch_log_to_biete_or_suche.
        exact (proj2 (map_Forall_lookup_1 _ _ _ _ Hok He)).
    + cbn [ctx snd sent]; split; [exact Hok|].
      eexists; split; [reflexivity|].
      rewrite dispatch_log_nil; constructor.
  - assert (Hcl : Forall (fun d' => d' = BIETE_TOPIC_ID cfg \/
                                    d' = SUCHE_TOPIC_ID cfg) (d :: l)).
    { apply Forall_forall; intros d' Hd'; rewrite <- Ec in Hd'.
      apply list_elem_of_In in Hd'.
      exact (classify_members cfg _ d' Hd'). }
    cbn [ctx snd sent]; split.
    + unfold update_user_context; apply map_Forall_insert_2; [|exact Hok].
      split; [discriminate | exact Hcl].
    + eexists; split; [reflexivity|].
      apply dispatch_log_to_biete_or_suche; exact Hcl.
Qed.

(** When every entry of the context dict holds a non-empty list of Biete and
    Suche topics, [handle_message] keeps it so, and the calls it makes
    (appended to the log, which it never rewrites) all post to the Biete or
    the Suche topic: never to the monitored topic or elsewhere. *)
Theorem handle_message_preserves_ctx_ok (cfg : config) (fails : call -> bool)
    (now : Z) (upd : update) (w : world) (Hok : ctx_ok cfg (ctx w)) :
  ctx_ok cfg (ctx (snd (handle_message cfg fails now upd w))) /\
  exists new, sent (snd (handle_message cfg fails now upd w)) =
              (sent w ++ new)%list /\
              Forall (to_biete_or_suche cfg) new.
Proof. exact (handle_message_step_ok cfg fails now upd w Hok). Qed.

Lemma handle_message_preserves_ctx_ok_witness :
  ctx_ok default_config (ctx alice_suche_world) /\
  ctx_ok default_config
    (ctx (snd (handle_message default_config (fun _ => false) 200
                 (sample_update biete_message) alice_suche_world))) /\
  exists new, sent (snd (handle_message default_config (fun _ => false) 200
                 (sample_update biete_message) alice_suche_world)) =
              (sent alice_suche_world ++ new)%list /\
              Forall (to_biete_or_suche default_config) new.
Proof.
  assert (H : ctx_ok default_config (ctx alice_suche_world))
    by (apply (bool_decide_unpack _); vm_compute; reflexivity).
  split; [exact H|].
  exact (handle_message_preserves_ctx_ok default_config (fun _ => false) 200
           (sample_update biete_message) alice_suche_world H).
Defined.

Lemma run_updates_ok (cfg : config) (fails : call -> bool)
    (ups : list (Z * update)) (w : world) :
  ctx_ok cfg (ctx w) -> Forall (to_biete_or_suche cfg) (sent w) ->
  ctx_ok cfg (ctx (run_updates cfg fails ups w)) /\
  Forall (to_biete_or_suche cfg) (sent (run_updates cfg fails ups w)).
Proof.
  revert w; induction ups as [|[now upd] ups IH]; intros w Hc Hs; [auto|].
  cbn [run_updates].
  destruct (handle_message_step_ok cfg fails now upd w Hc)
    as [Hc' [new [Hsent Hnew]]].
  apply IH; [exact Hc'|].
  rewrite Hsent; apply Forall_app; auto.
Qed.

(** Over any sequence of updates processed by the polling loop from a fresh
    start, every call the bot makes posts to the Biete or the Suche topic,
    and every context entry holds a non-empty list of those topics. *)
Theorem run_updates_only_biete_suche (cfg : config) (fails : call -> bool)
    (ups : list (Z * update)) :
  ctx_ok cfg (ctx (run_updates cfg fails ups empty_world)) /\
  Forall (to_biete_or_suche cfg) (sent (run_updates cfg fails ups empty_world)).
Proof.
  apply run_updates_ok; [apply map_Forall_empty | constructor].
Qed.

(** ** Entries are only renewed by hashtag messages *)

Lemma handle_message_no_renew (cfg : config) (fails : call -> bool)
    (now : Z) (upd : update) (w : world) (uid : Z) :
  renews cfg uid upd = false ->
  ctx (snd (handle_message cfg fails now upd w)) !! uid = ctx w !! uid \/
  ctx (snd (handle_message cfg fails now upd w)) !! uid = None.
Proof.
  intros Hr.
  destruct (handle_message_ctx_cases cfg fails now upd w uid)
    as [H | [(m & u & e & _ & _ & _ & _ & _ & _ & _ & H) |
             (m & u & Hm & [Hc Ht] & Hu & -> & Hne & _)]];
    [left; exact H | right; exact H |].
  exfalso; unfold renews in Hr.
  rewrite Hm, Hc, Z.eqb_refl, Ht, bool_decide_eq_true_2 in Hr by reflexivity.
  rewrite Hu, Z.eqb_refl, bool_decide_eq_false_2 in Hr by exact Hne.
  discriminate Hr.
Qed.

Lemma run_updates_no_renew (cfg : config) (fails : call -> bool)
    (uid : Z) (ups : list (Z * update)) (w : world) (o : option context_entry) :
  forallb (fun '(_, upd) => negb (renews cfg uid upd)) ups = true ->
  (ctx w !! uid = o \/ ctx w !! uid = None) ->
  ctx (run_updates cfg fails ups w) !! uid = o \/
  ctx (run_updates cfg fails ups w) !! uid = None.
Proof.
  revert w; induction ups as [|[now upd] ups IH]; intros w Hall Hw; [exact Hw|].
  cbn [forallb] in Hall; apply andb_true_iff in Hall as [Hr Hall].
  apply negb_true_iff in Hr.
  cbn [run_updates]; apply IH; [exact Hall|].
  destruct (handle_message_no_renew cfg fails now upd w uid Hr) as [H|H];
    rewrite H; auto.
Qed.

(** Along a sequence of updates none of which is a monitored hashtag
    message from [uid], the context entry of [uid] is never renewed: at the
    end it is the entry [uid] had at the start, or gone (deleted when a
    later message of [uid] found it expired). *)
Theorem run_updates_never_renews (cfg : config) (fails : call -> bool)
    (uid : Z) (ups : list (Z * update)) (w : world)
    (Hall : forallb (fun '(_, upd) => negb (renews cfg uid upd)) ups = true) :
  ctx (run_updates cfg fails ups w) !! uid = ctx w !! uid \/
  ctx (run_updates cfg fails ups w) !! uid = None.
Proof. apply run_updates_no_renew; auto. Qed.

Lemma run_updates_never_renews_witness :
  forallb (fun '(_, upd) => negb (renews default_config 7 upd))
    [(200, sample_update follow_up_message);
     (900000000, sample_update follow_up_message)] = true /\
  (ctx (run_updates default_config (fun _ => false)
          [(200, sample_update follow_up_message);
           (900000000, sample_update follow_up_message)] alice_suche_world)
     !! 7 = ctx alice_suche_world !! 7 \/
   ctx (run_updates default_config (fun _ => false)
          [(200, sample_update follow_up_message);
           (900000000, sample_update follow_up_message)] alice_suche_world)
     !! 7 = None).
Proof.
  assert (H : forallb (fun '(_, upd) => negb (renews default_config 7 upd))
    [(200, sample_update follow_up_message);
     (900000000, sample_update follow_up_message)] = true)
    by (vm_compute; reflexivity).
  split; [exact H|].
  exact (run_updates_never_renews default_config (fun _ => false) 7 _
           alice_suche_world H).
Defined.

(** ** A hashtag message, then a follow-up of the same user *)

Lemma keyword_message_ctx (cfg : config) (fails : call -> bool) (t0 : Z)
    (upd : update) (m : message) (u : user) (w : world) :
  update_message upd = Some m -> monitored cfg m -> from_user m = Some u ->
  classify cfg (text_of m) <> [] ->
  ctx (snd (handle_message cfg fails t0 upd w)) !! user_id u =
  Some {| topics := classify cfg (text_of m); timestamp := t0 |}.
Proof.
  intros Hm [Hc Ht] Hu Hkw.
  destruct (monitored_prefix cfg m Hc Ht) as [P1 P2].
  rewrite handle_message_eq, Hm, P1, P2, Hu.
  destruct (classify cfg (text_of m)) as [|d l]; [congruence|].
  cbn [ctx snd]; unfold update_user_context; apply lookup_insert_eq.
Qed.

(** When a user posts a monitored message with a hashtag at [t0] and then
    a monitored message without hashtag that has text or media at [t1], the
    second message is posted (text, then media) to the hashtag topics of
    the first when [t1 - t0] is at most the window, and the dict is left as
    the first message left it; when more time has passed, nothing is
    posted and the user's entry is deleted. *)
Theorem keyword_then_follow_up (cfg : config) (fails : call -> bool)
    (t0 t1 : Z) (upd1 upd2 : update) (m1 m2 : message) (u : user) (w : world)
    (H1 : update_message upd1 = Some m1) (H2 : update_message upd2 = Some m2)
    (Hm1 : monitored cfg m1) (Hm2 : monitored cfg m2)
    (Hu1 : from_user m1 = Some u) (Hu2 : from_user m2 = Some u)
    (Hkw : classify cfg (text_of m1) <> [])
    (Hno : classify cfg (text_of m2) = [])
    (Hcontent : has_media_of m2 || strip_nonempty (text_of m2) = true) :
  snd (handle_message cfg fails t1 upd2
         (snd (handle_message cfg fails t0 upd1 w))) =
  if t1 - t0 >? context_window cfg
  then {| ctx := delete (user_id u)
                   (ctx (snd (handle_message cfg fails t0 upd1 w)));
          sent := sent (snd (handle_message cfg fails t0 upd1 w)) |}
  else {| ctx := ctx (snd (handle_message cfg fails t0 upd1 w));
          sent := (sent (snd (handle_message cfg fails t0 upd1 w)) ++
                   dispatch_log fails m2 (classify cfg (text_of m1))
                     (user_link_of u) (text_of m2))%list |}.
Proof.
  pose proof (keyword_message_ctx cfg fails t0 upd1 m1 u w H1 Hm1 Hu1 Hkw)
    as Hctx.
  set (w1 := snd (handle_message cfg fails t0 upd1 w)) in *.
  destruct Hm2 as [Hc Ht].
  destruct (monitored_prefix cfg m2 Hc Ht) as [P1 P2].
  rewrite (handle_message_eq cfg fails t1 upd2), H2, P1, P2, Hu2, Hno, Hcontent.
  unfold get_active_topics_for_user; rewrite Hctx; cbn [timestamp topics].
  destruct (t1 - t0 >? context_window cfg); cbn [snd];
    [rewrite dispatch_log_nil, app_nil_r|]; reflexivity.
Qed.

Lemma keyword_then_follow_up_witness :
  snd (handle_message default_config (fun _ => false) 200
         (sample_update follow_up_message)
         (snd (handle_message default_config (fun _ => false) 100
                 (sample_update biete_message) empty_world))) =
  if 200 - 100 >? context_window default_config
  then {| ctx := delete (user_id alice)
                   (ctx (snd (handle_message default_config (fun _ => false) 100
                                (sample_update biete_message) empty_world)));
          sent := sent (snd (handle_message default_config (fun _ => false) 100
                               (sample_update biete_message) empty_world)) |}
  else {| ctx := ctx (snd (handle_message default_config (fun _ => false) 100
                             (sample_update biete_message) empty_world));
          sent := (sent (snd (handle_message default_config (fun _ => false) 100
                               (sample_update biete_message) empty_world)) ++
                   dispatch_log (fun _ => false) follow_up_message
                     (classify default_config (text_of biete_message))
                     (user_link_of alice) (text_of follow_up_message))%list |}.
Proof.
  apply (keyword_then_follow_up default_config (fun _ => false) 100 200
           (sample_update biete_message) (sample_update follow_up_message)
           biete_message follow_up_message alice empty_world);
    try reflexivity; try (split; reflexivity).
  vm_compute; discriminate.
Defined.

(** ** Blank messages *)

(** A message with a sender, no media and a text or caption that is empty
    or only whitespace (ASCII or Unicode, such as a no-break space) has no
    effect: no call, and the context dict is not
    read (so an expired entry is not deleted). *)
Theorem blank_message_no_effect (cfg : config) (fails : call -> bool)
    (now : Z) (upd : update) (m : message) (u : user) (w : world)
    (H : update_message upd = Some m) (Hu : from_user m = Some u)
    (Hmedia : has_media_of m = false)
    (Hblank : strip_nonempty (text_of m) = false) :
  handle_message cfg fails now upd w = (Ok tt, w).
Proof.
  assert (Hno : classify cfg (text_of m) = []).
  { destruct (classify cfg (text_of m)) eqn:E; [reflexivity|].
    rewrite (classify_nonblank cfg (text_of m)) in Hblank;
      [discriminate | rewrite E; discriminate]. }
  rewrite handle_message_eq, H.
  destruct (negb (Z.eqb _ _)); [reflexivity|].
  destruct (negb (bool_decide _)); [reflexivity|].
  rewrite Hu, Hno, Hmedia, Hblank; reflexivity.
Qed.

Lemma blank_message_no_effect_witness :
  has_media_of (sample_message (Some alice) (Some nbsp_text) None [] None) = false /\
  strip_nonempty (text_of (sample_message (Some alice) (Some nbsp_text) None [] None))
    = false /\
  handle_message default_config (fun _ => true) 900000000
    (sample_update (sample_message (Some alice) (Some nbsp_text) None [] None))
    alice_suche_world = (Ok tt, alice_suche_world).
Proof.
  split; [reflexivity|]; split; [vm_compute; reflexivity|].
  exact (blank_message_no_effect default_config (fun _ => true) 900000000
           (sample_update (sample_message (Some alice) (Some nbsp_text) None [] None))
           _ alice alice_suche_world eq_refl eq_refl eq_refl
           ltac:(vm_compute; reflexivity)).
Defined.

(** ** Media calls per topic *)

Lemma media_log_payload (fails : call -> bool) (m : message) (t : Z)
    (ul : string) :
  length (List.filter (fun e => is_payload_call (fst e))
            (media_log fails m t ul)) = (if has_media_of m then 1 else 0)%nat /\
  (length (media_log fails m t ul) <= 2)%nat.
Proof.
  unfold media_log, media_primary, media_followup, has_media_of.
  destruct (photo m), (video m), (document m), (audio m), (voice m),
    (video_note m), (sticker m), (truthy (caption m)); cbn;
    repeat (destruct (fails _); cbn); lia.
Qed.

Lemma text_log_no_payload (fails : call -> bool) (l : list Z) (ul text : string) :
  List.filter (fun e => is_payload_call (fst e)) (text_log fails l ul text) = [].
Proof. induction l as [|t l IH]; [reflexivity|]; exact IH. Qed.

(** Each [forward_media_to_topic] makes exactly one media call (the first
    media kind of the message in the order photo, video, document, audio,
    voice, video note, sticker) when the message has media and none
    otherwise, and at most two calls in all; so one dispatch makes one
    media call per target topic when the message has media, and none
    otherwise, whatever fails. *)
Theorem dispatch_media_calls (fails : call -> bool) (m : message) (l : list Z)
    (ul text : string) :
  (forall t, length (List.filter (fun e => is_payload_call (fst e))
                       (media_log fails m t ul)) =
             (if has_media_of m then 1 else 0)%nat /\
             (length (media_log fails m t ul) <= 2)%nat) /\
  length (List.filter (fun e => is_payload_call (fst e))
            (dispatch_log fails m l ul text)) =
  (if has_media_of m then length l else 0)%nat.
Proof.
  split; [intros t; apply media_log_payload|].
  unfold dispatch_log; rewrite List.filter_app, List.length_app.
  assert (Ht : length (List.filter (fun e => is_payload_call (fst e))
                 (if strip_nonempty text then text_log fails l ul text else []))
               = 0%nat)
    by (destruct (strip_nonempty text); [rewrite text_log_no_payload|];
        reflexivity).
  rewrite Ht; cbn [Nat.add]; clear Ht.
  destruct (has_media_of m) eqn:Hm; [|reflexivity].
  induction l as [|t l IH]; [reflexivity|].
  cbn [flat_map]; rewrite List.filter_app, List.length_app, IH.
  rewrite (proj1 (media_log_payload fails m t ul)), Hm; reflexivity.
Qed.

(** ** Updates the handler drops or raises on *)

Lemma handle_message_ignored (cfg : config) (fails : call -> bool)
    (now : Z) (upd : update) (w : world) :
  (update_message upd = None \/
   exists m, update_message upd = Some m /\
     (chat_id m <> GROUP_ID cfg \/
      message_thread_id m <> Some (HAUPTGRUPPE_TOPIC_ID cfg) \/
      from_user m = None)) ->
  snd (handle_message cfg fails now upd w) = w.
Proof.
  intros Hign; rewrite handle_message_eq.
  destruct Hign as [-> | (m & -> & Hm)]; [reflexivity|].
  destruct (Z.eqb (chat_id m) (GROUP_ID cfg)) eqn:Hc; [|reflexivity].
  apply Z.eqb_eq in Hc.
  destruct (bool_decide (message_thread_id m = Some (HAUPTGRUPPE_TOPIC_ID cfg)))
    eqn:Ht; [|reflexivity].
  apply bool_decide_eq_true_1 in Ht.
  destruct Hm as [Hm | [Hm | Hm]]; [contradiction | contradiction |].
  cbn [negb]; rewrite Hm; reflexivity.
Qed.

(** With [error_handler] only logging, an update without message, from
    another chat or topic, or without sender (on which the handler raises)
    leaves no trace: the polling loop ends in the same state whether or not
    it is in the sequence of updates. *)
Theorem run_updates_skip_ignored (cfg : config) (fails : call -> bool)
    (ups1 ups2 : list (Z * update)) (now : Z) (upd : update) (w : world)
    (Hign : update_message upd = None \/
            exists m, update_message upd = Some m /\
              (chat_id m <> GROUP_ID cfg \/
               message_thread_id m <> Some (HAUPTGRUPPE_TOPIC_ID cfg) \/
               from_user m = None)) :
  run_updates cfg fails (ups1 ++ (now, upd) :: ups2) w =
  run_updates cfg fails (ups1 ++ ups2) w.
Proof.
  revert w; induction ups1 as [|[t u] ups1 IH]; intros w.
  - cbn [app run_updates]; rewrite handle_message_ignored by exact Hign.
    reflexivity.
  - cbn [app run_updates]; apply IH.
Qed.

Lemma run_updates_skip_ignored_witness :
  run_updates default_config (fun _ => false)
    ([(100, sample_update biete_message)] ++
     (150, sample_update no_sender_message) ::
     [(200, sample_update follow_up_message)]) empty_world =
  run_updates default_config (fun _ => false)
    ([(100, sample_update biete_message)] ++
     [(200, sample_update follow_up_message)]) empty_world.
Proof.
  apply run_updates_skip_ignored.
  right; exists no_sender_message; split; [reflexivity|].
  right; right; reflexivity.
Defined.

(** ** [load_env] *)

Lemma load_env_lines_lookup (lines : list string) (env env' : environ)
    (k : string) :
  load_env_lines lines env = Some env' ->
  env' !! k = match env !! k with
              | Some v => Some v
              | None => first_definition lines k
              end.
Proof.
  revert env; induction lines as [|raw lines IH]; intros env H.
  - injection H; intros <-; destruct (env !! k); reflexivity.
  - cbn [load_env_lines first_definition] in *.
    destruct (parse_line raw) as [[key value]|]; [|exact (IH _ H)].
    unfold setdefault in H.
    destruct (env !! key) as [v0|] eqn:Ek.
    + rewrite (IH _ H).
      destruct (env !! k) eqn:E; [reflexivity|].
      destruct (String.eqb key k) eqn:Eq; [|reflexivity].
      apply String.eqb_eq in Eq; subst; congruence.
    + destruct (putenv_ok key value); [|discriminate H].
      rewrite (IH _ H).
      destruct (decide (key = k)) as [<-|Hne].
      * rewrite lookup_insert_eq, Ek, String.eqb_refl; reflexivity.
      * rewrite lookup_insert_ne by exact Hne.
        destruct (env !! k); [reflexivity|].
        rewrite (proj2 (String.eqb_neq _ _) Hne); reflexivity.
Qed.

(** When [load_env] returns, a variable that was set before keeps its value
    ([setdefault] never overwrites), and an unset one gets the value of the
    first line of the file that sets it (later lines for the same key are
    ignored), or stays unset when the file has none or does not exist. *)
Theorem load_env_lookup (file : option string) (env env' : environ)
    (k : string) (H : load_env file env = Some env') :
  env' !! k = match env !! k with
              | Some v => Some v
              | None => match file with
                        | None => None
                        | Some text => first_definition (splitlines text) k
                        end
              end.
Proof.
  destruct file as [text|].
  - exact (load_env_lines_lookup _ env env' k H).
  - injection H; intros <-; destruct (env !! k); reflexivity.
Qed.

Lemma load_env_lookup_witness :
  load_env (Some sample_env_file) (<["MODE" := "webhook"]> ∅) =
    Some (<["BOT_TOKEN" := "123:abc"]> (<["MODE" := "webhook"]> ∅)) /\
  <["BOT_TOKEN" := "123:abc"]> (<["MODE" := "webhook"]> (∅ : environ))
    !! "BOT_TOKEN" =
  match <["MODE" := "webhook"]> (∅ : environ) !! "BOT_TOKEN" with
  | Some v => Some v
  | None => match Some sample_env_file with
            | None => None
            | Some text => first_definition (splitlines text) "BOT_TOKEN"
            end
  end.
Proof.
  assert (H : load_env (Some sample_env_file) (<["MODE" := "webhook"]> ∅) =
    Some (<["BOT_TOKEN" := "123:abc"]> (<["MODE" := "webhook"]> ∅)))
    by (vm_compute; reflexivity).
  split; [exact H|].
  exact (load_env_lookup (Some sample_env_file) _ _ "BOT_TOKEN" H).
Defined.

Lemma parse_line_eq_first (raw r : string) :
  py_strip raw = "=" ++ r -> parse_line raw = Some ("", py_strip r).
Proof.
  intros H; unfold parse_line; rewrite H.
  change ("=" ++ r) with (String "=" r).
  assert (Hin : str_in "=" (String "=" r) = true)
    by (apply str_in_iff; exists "", r; reflexivity).
  rewrite Hin; reflexivity.
Qed.

Lemma load_env_lines_empty_key (pre post : list string) (raw v : string)
    (env : environ) :
  parse_line raw = Some ("", v) -> env !! "" = None ->
  load_env_lines (app pre (raw :: post)) env = None.
Proof.
  intros Hraw; revert env; induction pre as [|raw' pre IH]; intros env H.
  - cbn [app load_env_lines]; rewrite Hraw.
    unfold setdefault; rewrite H; reflexivity.
  - cbn [app load_env_lines].
    destruct (parse_line raw') as [[key value]|]; [|apply IH, H].
    unfold setdefault.
    destruct (env !! key); [apply IH, H|].
    destruct (putenv_ok key value) eqn:Ep; [|reflexivity].
    apply IH; rewrite lookup_insert_ne; [exact H|].
    intros ->; discriminate Ep.
Qed.

(** A line whose key is empty makes [load_env] raise: that is any line
    that starts with ["="] once stripped (like ["=value"] or
    [" = value"]); [os.environ.setdefault("", ...)] calls [putenv] with an
    empty name, which is refused; the lines after it are not read, and
    since [load_env()] runs at import time, the bot does not start. *)
Theorem load_env_empty_key_raises :
  (forall raw r, py_strip raw = "=" ++ r ->
     parse_line raw = Some ("", py_strip r)) /\
  (forall text pre raw post v env,
     splitlines text = app pre (raw :: post) ->
     parse_line raw = Some ("", v) -> env !! "" = None ->
     load_env (Some text) env = None).
Proof.
  split; [exact parse_line_eq_first|].
  intros text pre raw post v env Hlines Hraw Henv.
  cbn [load_env]; rewrite Hlines.
  exact (load_env_lines_empty_key _ _ _ _ _ Hraw Henv).
Qed.

Lemma load_env_empty_key_raises_witness :
  parse_line (" " ++ "=oops") = Some ("", "oops") /\
  load_env (Some ("BOT_TOKEN=1" ++ nl ++ " =oops" ++ nl ++ "MODE=poll")) ∅
    = None.
Proof.
  assert (Hs : py_strip (" " ++ "=oops") = "=" ++ "oops")
    by (vm_compute; reflexivity).
  split; [exact (proj1 load_env_empty_key_raises _ _ Hs)|].
  apply (proj2 load_env_empty_key_raises _ ["BOT_TOKEN=1"] " =oops"
           ["MODE=poll"] "oops"); [vm_compute; reflexivity | | reflexivity].
  exact (proj1 load_env_empty_key_raises _ _ Hs).
Defined.

Lemma str_length_app (a b : string) :
  String.length (a ++ b) = (String.length a + String.length b)%nat.
Proof.
  induction a as [|c a IH]; [reflexivity|].
  rewrite str_app_cons; cbn [String.length]; rewrite IH; reflexivity.
Qed.

Lemma concat_chars_length (a b : list string) :
  String.length (concat_chars (app a b)) =
  (String.length (concat_chars a) + String.length (concat_chars b))%nat.
Proof. rewrite concat_chars_app; apply str_length_app. Qed.

Lemma drop_spaces_suffix (l : list string) :
  exists p, l = app p (drop_spaces l).
Proof.
  induction l as [|ch l [p Hp]]; [exists []; reflexivity|].
  cbn [drop_spaces]; destruct (is_space_char ch).
  - exists (ch :: p); cbn [app]; rewrite <- Hp; reflexivity.
  - exists []; reflexivity.
Qed.

Lemma drop_spaces_keep (l : list string) :
  match l with [] => True | ch :: _ => is_space_char ch = false end ->
  drop_spaces l = l.
Proof. destruct l as [|ch l]; [reflexivity|]; cbn; intros ->; reflexivity. Qed.

Lemma eq_char_not_space (x : string) : is_space_char (String "=" x) = false.
Proof. destruct x; reflexivity. Qed.

Lemma char_wf_length (ch : string) : char_wf ch = true -> (0 < String.length ch)%nat.
Proof. destruct ch; [discriminate | cbn; lia]. Qed.

(** A string [v] with [v.rstrip() == v] is empty or ends in a character
    that is not whitespace. *)
Lemma rstrip_fixed_last (v : string) :
  rstrip v = v ->
  chars v = [] \/
  exists pre lst, chars v = app pre [lst] /\ is_space_char lst = false.
Proof.
  intros Hr.
  destruct (rev (chars v)) as [|lst rp] eqn:E.
  - left; apply (f_equal (@rev _)) in E; rewrite rev_involutive in E; exact E.
  - right.
    assert (Hcv : chars v = app (rev rp) [lst])
      by (rewrite <- (rev_involutive (chars v)), E; reflexivity).
    destruct (is_space_char lst) eqn:Es; [|exists (rev rp), lst; auto].
    exfalso.
    unfold rstrip in Hr; rewrite E in Hr; cbn [drop_spaces] in Hr.
    rewrite Es in Hr.
    destruct (drop_spaces_suffix rp) as [p Hp].
    assert (Hlst : (0 < String.length lst)%nat).
    { apply char_wf_length.
      pose proof (proj1 (chars_wf v)) as Hw; rewrite Hcv in Hw.
      apply forallb_forall with (x := lst) in Hw; [exact Hw|].
      apply in_or_app; right; left; reflexivity. }
    pose proof (concat_chars_chars v) as Hv; rewrite Hcv in Hv.
    apply (f_equal String.length) in Hv, Hr.
    rewrite concat_chars_length in Hv; cbn [concat_chars] in Hv.
    rewrite string_app_nil_r in Hv.
    rewrite Hp, rev_app_distr, concat_chars_length in Hv.
    lia.
Qed.

Lemma chars_eq_last (v : string) :
  (chars v = [] \/
   exists pre lst, chars v = app pre [lst] /\ is_space_char lst = false) ->
  exists pre lst, chars (String "=" v) = app pre [lst] /\
                  is_space_char lst = false.
Proof.
  intros Hv; cbn [chars].
  destruct Hv as [-> | (pre & lst & -> & Hl)].
  - exists [], (String "=" ""); split; reflexivity.
  - destruct pre as [|p0 pre]; cbn [app].
    + destruct (starts_cont lst).
      * exists [], (String "=" lst); split; [reflexivity|].
        apply eq_char_not_space.
      * exists [String "=" ""], lst; split; [reflexivity | exact Hl].
    + destruct (starts_cont p0).
      * exists (String "=" p0 :: pre), lst; split; [reflexivity | exact Hl].
      * exists (String "=" "" :: p0 :: pre), lst; split; [reflexivity | exact Hl].
Qed.

Lemma no_space_drop (l : list string) :
  forallb (fun ch => negb (is_space_char ch)) l = true -> drop_spaces l = l.
Proof.
  intros H; apply drop_spaces_keep; destruct l as [|ch l]; [exact I|].
  cbn [forallb] in H; apply andb_true_iff in H as [H _].
  apply negb_true_iff in H; exact H.
Qed.

Lemma plain_key_strip (k : string) : plain_key k = true -> py_strip k = k.
Proof.
  unfold plain_key, py_strip; intros H.
  apply andb_true_iff in H as [H _].
  assert (Hl : lstrip k = k)
    by (unfold lstrip; rewrite (no_space_drop _ H); apply concat_chars_chars).
  rewrite Hl; unfold rstrip.
  rewrite no_space_drop, rev_involutive, concat_chars_chars; [reflexivity|].
  apply forallb_forall; intros x Hx; apply in_rev in Hx.
  exact (proj1 (forallb_forall _ _) H x Hx).
Qed.

Lemma key_split (k r : string) :
  str_forallb (fun c => negb (Ascii.eqb c "=")) k = true ->
  split_first_eq (k ++ String "=" r) = (k, r).
Proof.
  induction k as [|c k IH]; intros H; [reflexivity|].
  cbn [str_forallb] in H; apply andb_true_iff in H as [Hc Hk].
  apply negb_true_iff in Hc.
  rewrite str_app_cons; cbn [split_first_eq]; rewrite IH by exact Hk.
  destruct (ascii_dec c "=") as [->|]; [discriminate Hc | reflexivity].
Qed.

Lemma key_prefix (k r : string) :
  String.prefix "#" k = false ->
  String.prefix "#" (k ++ String "=" r) = false.
Proof.
  destruct k as [|c k]; [reflexivity|].
  rewrite str_app_cons; cbn [String.prefix].
  destruct (ascii_dec "#" c); [|reflexivity].
  intros H; destruct k; discriminate H.
Qed.

(** A line [KEY=value] as [load_env] reads it: for a key without
    whitespace (ASCII or Unicode) or ["="] that does not start with ["#"],
    and a value equal to its own [strip()], the line sets [KEY] to [value],
    with the value kept whole (including any ["="] or inner spaces). *)
Theorem parse_line_round_trip (k v : string)
    (Hk : plain_key k = true)
    (Hhash : String.prefix "#" k = false)
    (Hl : lstrip v = v) (Hr : rstrip v = v) :
  parse_line (k ++ "=" ++ v) = Some (k, v).
Proof.
  change ("=" ++ v) with (String "=" v).
  pose proof Hk as Hk'; unfold plain_key in Hk'.
  apply andb_true_iff in Hk' as [Hks Hke].
  assert (Hc : chars (k ++ String "=" v) =
               app (chars k) (chars (String "=" v)))
    by (apply chars_app; right; reflexivity).
  assert (Hls : lstrip (k ++ String "=" v) = k ++ String "=" v).
  { unfold lstrip; rewrite drop_spaces_keep; [apply concat_chars_chars|].
    rewrite Hc; destruct (chars k) as [|ch rest] eqn:Ek.
    - destruct (chars_head "=" v) as (x & rest' & ->).
      apply eq_char_not_space.
    - cbn [forallb] in Hks; apply andb_true_iff in Hks as [Hch _].
      apply negb_true_iff in Hch; exact Hch. }
  assert (Hrs : rstrip (k ++ String "=" v) = k ++ String "=" v).
  { destruct (chars_eq_last v (rstrip_fixed_last v Hr)) as (pre & lst & Ev & Hlst).
    unfold rstrip; rewrite Hc, Ev, app_assoc, rev_unit.
    cbn [drop_spaces]; rewrite Hlst.
    rewrite <- rev_unit, rev_involutive, <- app_assoc, <- Ev, <- Hc.
    apply concat_chars_chars. }
  unfold parse_line, py_strip; rewrite Hls, Hrs.
  assert (Hne : String.eqb (k ++ String "=" v) "" = false)
    by (destruct k; reflexivity).
  assert (Hin : str_in "=" (k ++ String "=" v) = true).
  { apply str_in_iff; exists k, v; reflexivity. }
  rewrite Hne, key_prefix, Hin by exact Hhash; cbn [orb negb].
  rewrite key_split by exact Hke.
  fold (py_strip k) (py_strip v).
  rewrite plain_key_strip by exact Hk.
  unfold py_strip; rewrite Hl, Hr; reflexivity.
Qed.

Lemma parse_line_round_trip_witness :
  parse_line ("BOT_TOKEN" ++ "=" ++ "123:abc def==") =
    Some ("BOT_TOKEN", "123:abc def==").
Proof.
  apply parse_line_round_trip; vm_compute; reflexivity.
Defined.

Lemma split_lines_chars_lines (l : list string) (x : string) :
  In x (split_lines_chars l) ->
  exists chs, x = concat_chars chs /\
    forallb (fun ch => negb (is_line_boundary_char ch)) chs = true /\
    incl chs l /\ incl (tl chs) (tl l).
Proof.
  remember (length l) as n eqn:Hn.
  assert (Hle : (length l <= n)%nat) by lia; clear Hn.
  revert l x Hle; induction n as [|n IH]; intros l x Hle Hin.
  { destruct l; [destruct Hin | cbn in Hle; lia]. }
  assert (Hempty : exists chs, "" = concat_chars chs /\
    forallb (fun ch => negb (is_line_boundary_char ch)) chs = true /\
    incl chs l /\ incl (tl chs) (tl l))
    by (exists []; repeat split; try reflexivity; intros y []).
  destruct l as [|ch l']; [destruct Hin|].
  cbn [length] in Hle; cbn [split_lines_chars] in Hin.
  assert (Hsub : forall l0 y, (length l0 <= n)%nat -> incl l0 l' ->
            In y (split_lines_chars l0) ->
            exists chs, y = concat_chars chs /\
              forallb (fun ch => negb (is_line_boundary_char ch)) chs = true /\
              incl chs (ch :: l') /\ incl (tl chs) (tl (ch :: l'))).
  { intros l0 y Hl0 Hinc Hy.
    destruct (IH l0 y Hl0 Hy) as (chs & -> & Hb & Hi & _).
    exists chs; repeat split; [exact Hb| |].
    - intros z Hz; right; exact (Hinc z (Hi z Hz)).
    - intros z Hz; cbn [tl]; apply Hinc, Hi.
      destruct chs; [destruct Hz | right; exact Hz]. }
  destruct (String.eqb ch CR).
  - destruct l' as [|ch2 l''].
    + destruct Hin as [<-|[]]; exact Hempty.
    + destruct (String.eqb ch2 nl); (destruct Hin as [<-|Hin]; [exact Hempty|]).
      * apply (Hsub l''); [cbn [length] in Hle; lia | | exact Hin].
        intros z Hz; right; exact Hz.
      * apply (Hsub (ch2 :: l'')); [cbn [length] in Hle |- *; lia
                                   | intros z Hz; exact Hz | exact Hin].
  - destruct (is_line_boundary_char ch) eqn:Hb.
    + destruct Hin as [<-|Hin]; [exact Hempty|].
      apply (Hsub l'); [lia | intros z Hz; exact Hz | exact Hin].
    + destruct (split_lines_chars l') as [|y r] eqn:E.
      * destruct Hin as [<-|[]].
        exists [ch]; split; [cbn [concat_chars]; symmetry; apply string_app_nil_r|].
        split; [cbn [forallb]; rewrite Hb; reflexivity|].
        split; [intros z [<-|[]]; left; reflexivity | intros z []].
      * destruct Hin as [<-|Hin].
        -- destruct (IH l' y ltac:(lia) ltac:(rewrite E; left; reflexivity))
             as (chs & -> & Hbs & Hi & _).
           exists (ch :: chs); split; [reflexivity|].
           split; [cbn [forallb]; rewrite Hb, Hbs; reflexivity|].
           split; [intros z [<-|Hz]; [left; reflexivity | right; exact (Hi z Hz)]|].
           exact Hi.
        -- apply (Hsub l'); [lia | intros z Hz; exact Hz |].
           rewrite E; right; exact Hin.
Qed.

(** [str.splitlines()] removes every line boundary: no line it returns
    contains one of its characters ([\n], [\r], [\v], [\f], [\x1c]-[\x1e],
    U+0085, U+2028, U+2029); in particular no ["\r"] is left of a
    ["\r\n"] ending, so a [.env] file with Windows line endings is read
    like one with Unix ones. *)
Theorem splitlines_no_boundary (s l : string) :
  In l (splitlines s) ->
  forallb (fun ch => negb (is_line_boundary_char ch)) (chars l) = true.
Proof.
  intros Hin; apply split_lines_chars_lines in Hin as (chs & -> & Hb & Hi & Ht).
  destruct (chars_wf s) as [Hw Hl].
  rewrite chars_concat; [exact Hb| |].
  - apply forallb_forall; intros x Hx.
    exact (proj1 (forallb_forall _ _) Hw x (Hi x Hx)).
  - apply forallb_forall; intros x Hx.
    exact (proj1 (forallb_forall _ _) Hl x (Ht x Hx)).
Qed.

Lemma splitlines_no_boundary_witness :
  In "A=b" (splitlines ("BOT_TOKEN=1" ++ CR ++ nl ++ "A=b" ++
                        utf8 [226; 128; 168]%nat ++ "MODE=poll")) /\
  forallb (fun ch => negb (is_line_boundary_char ch)) (chars "A=b") = true.
Proof.
  assert (H : In "A=b" (splitlines ("BOT_TOKEN=1" ++ CR ++ nl ++ "A=b" ++
                        utf8 [226; 128; 168]%nat ++ "MODE=poll")))
    by (vm_compute; right; left; reflexivity).
  split; [exact H|].
  exact (splitlines_no_boundary _ _ H).
Defined.

(** ** Updates of different users *)

Lemma handle_message_frame (cfg : config) (fails : call -> bool) (now : Z)
    (upd : update) (w : world) (k : Z) :
  sender upd <> Some k ->
  ctx (snd (handle_message cfg fails now upd w)) !! k = ctx w !! k.
Proof.
  intros Hs.
  destruct (handle_message_ctx_cases cfg fails now upd w k)
    as [H | [(m & u & e & Hm & _ & Hu & -> & _) | (m & u & Hm & _ & Hu & -> & _)]];
    [exact H | |]; exfalso; apply Hs; unfold sender; rewrite Hm, Hu; reflexivity.
Qed.

Lemma handle_message_local (cfg : config) (fails : call -> bool) (now : Z)
    (upd : update) (w1 w2 : world) (k : Z) :
  ctx w1 !! k = ctx w2 !! k ->
  ctx (snd (handle_message cfg fails now upd w1)) !! k =
  ctx (snd (handle_message cfg fails now upd w2)) !! k.
Proof.
  intros H; rewrite !handle_message_eq.
  destruct (update_message upd) as [m|]; [|exact H].
  destruct (negb (Z.eqb _ _)); [exact H|].
  destruct (negb (bool_decide _)); [exact H|].
  destruct (from_user m) as [u|]; [|exact H].
  destruct (classify cfg (text_of m)) as [|d l].
  - destruct (has_media_of m || strip_nonempty (text_of m)); [|exact H].
    unfold get_active_topics_for_user.
    destruct (decide (k = user_id u)) as [->|Hne].
    + rewrite H; destruct (ctx w2 !! user_id u) as [e|] eqn:E2;
        [|cbn [ctx snd]; congruence].
      destruct (now - timestamp e >? context_window cfg); cbn [ctx snd];
        [rewrite !lookup_delete_eq; reflexivity | congruence].
    + destruct (ctx w1 !! user_id u) as [e1|];
        [destruct (now - timestamp e1 >? context_window cfg)|];
        destruct (ctx w2 !! user_id u) as [e2|];
        try destruct (now - timestamp e2 >? context_window cfg);
        cbn [ctx snd]; rewrite ?lookup_delete_ne by congruence; exact H.
  - cbn [ctx snd]; unfold update_user_context.
    destruct (decide (k = user_id u)) as [->|Hne].
    + rewrite !lookup_insert_eq; reflexivity.
    + rewrite !lookup_insert_ne by congruence; exact H.
Qed.

(** [handle_message] reads and writes the context dict only at the sender's
    key, so two updates from different users (or without sender) leave the
    same context dict in either order. *)
Theorem handle_message_other_users_commute (cfg : config)
    (fails : call -> bool) (t1 t2 : Z) (upd1 upd2 : update) (w : world)
    (Hd : forall k, sender upd1 = Some k -> sender upd2 = Some k -> False) :
  ctx (snd (handle_message cfg fails t2 upd2
              (snd (handle_message cfg fails t1 upd1 w)))) =
  ctx (snd (handle_message cfg fails t1 upd1
              (snd (handle_message cfg fails t2 upd2 w)))).
Proof.
  apply map_eq; intros k.
  destruct (decide (sender upd2 = Some k)) as [H2|H2].
  - assert (H1 : sender upd1 <> Some k) by (intros H1; exact (Hd k H1 H2)).
    rewrite (handle_message_frame cfg fails t1 upd1 _ k H1).
    apply handle_message_local.
    first [apply handle_message_frame, H1 |
           symmetry; apply handle_message_frame, H1].
  - rewrite (handle_message_frame cfg fails t2 upd2 _ k H2).
    apply handle_message_local.
    first [apply handle_message_frame, H2 |
           symmetry; apply handle_message_frame, H2].
Qed.

Lemma handle_message_other_users_commute_witness :
  (forall k, sender (sample_update biete_message) = Some k ->
             sender (sample_update bob_message) = Some k -> False) /\
  ctx (snd (handle_message default_config (fun _ => false) 200
              (sample_update bob_message)
              (snd (handle_message default_config (fun _ => false) 100
                      (sample_update biete_message) alice_suche_world)))) =
  ctx (snd (handle_message default_config (fun _ => false) 100
              (sample_update biete_message)
              (snd (handle_message default_config (fun _ => false) 200
                      (sample_update bob_message) alice_suche_world)))).
Proof.
  assert (Hd : forall k, sender (sample_update biete_message) = Some k ->
             sender (sample_update bob_message) = Some k -> False).
  { intros k H1 H2; vm_compute in H1, H2; congruence. }
  split; [exact Hd|].
  exact (handle_message_other_users_commute default_config (fun _ => false)
           100 200 _ _ alice_suche_world Hd).
Defined.
